(* ===== verification/_CoqProject ===== *)
-Q . S2P
Prelude.v
Reach.v
Sparql.v
Lookup.v
Expander.v
ExpanderOrder.v
ExpanderExc.v
Pipeline.v
Aggregator.v
Stats.v
Graph.v
Visualise.v
Main.v
