(* ===== verification/Prelude.v ===== *)
(** * A verification development of EU_legislation_reference_querier

    The repository ([src/src/helper_functions.py], [src/src/main.py])
    asks a SPARQL endpoint which EU documents (CELEX identifiers) cite, or
    are cited by, a seed document, builds the citation graph around one or
    more seeds up to a depth bound in each direction, scores the nodes it
    found against an expert reference set (precision, recall, F1), sweeps
    the scores over a grid of depths, filters the graph by degree and
    renders it.

    ** The program and how its parts interact

    - CitationLookup ([get_citations], helper_functions.py 3-43): formats
      one SPARQL query (lines 15-34), sends it, collects the [name2]
      bindings into a set and keeps identifiers starting with ['3']
      (legislation).  It raises whatever the request raises.
    - CitationExpander ([get_citations_structure], 65-95): the
      depth-bounded recursive expansion.  With both budgets positive it
      splits into a cites-only and a cited-only expansion; otherwise it
      queries one hop from the source, adds every target as a node and a
      link oriented by the active direction, and recurses into the target
      with the decremented budgets when the (Python-precedence) guard
      [new_cites_depth or (new_cited_depth and target not in dont_repeat)]
      holds.  The recursive call does not pass [dont_repeat] on.
    - MultiSourceAggregator ([get_citations_structure_multiple], 98-107,
      and the flat [get_citations_multiple], 46-63).
    - GraphStatsEvaluator ([do_stats], 110-123), which reads a global
      [expert_docs] that the repository never defines.
    - DepthSweepRunner ([get_indv_stats], main.py 27-36).
    - DegreeFilter ([generate_network], main.py 49-64) over networkx's
      undirected [Graph] (add_edges_from, degree).
    - [get_started] (main.py 6-25) wires expander and stats together;
      [prep_edges_list] (38-47) writes the CSV edge list;
      [visualise_network] (66-71) builds the pyvis page.

    Data flows endpoint -> lookup -> expander -> aggregator -> {stats,
    degree filter, visualisation}; an exception of the endpoint flows
    back out through all of them.

    ** Files, in dependency order

    - [Prelude] (this file): the [celex] and [link] types, the Python
      exceptions, the [outcome] error monad with stdpp's [≫=] and its
      [for] loop [outcome_fold], the [cite_scope] notation, the [cite]
      hint databases and the shared lemmas on budgets and outcomes.
    - [Reach]: the abstract specification of bounded exploration:
      [reach_within step n s t] (a path of at most [n] hops) and
      [edge_within], with their unfolding and extensionality lemmas.
    - [Sparql]: the query text ([sparql_query], Python's [%i] as
      [py_format_int]); a model of the endpoint: its reading of the
      template ([read_query]) and its answer on a citation graph
      [citation_kg] ([sparql_service], property paths as [hops]).
      Theorems: the text round trip (C23), rejection of negative bounds,
      and the unescaped literal: no identifier holding a double quote,
      backslash or line break is read back (C31).
    - [Lookup]: [get_citations] over any [endpoint] (query text to
      bindings or exception) (C22), and on the endpoint model (C24).
    - [Expander]: [get_citations_structure] over a lookup that answers,
      with a log of every lookup it issues: termination and fuel (C3);
      the well-formedness [exp_wf] of every result (seed a node, links
      and looked-up documents among the nodes), preserved by each
      operation of the body (C4); the number of lookups, at most
      [walk_bound] (the walks of the lookup graph), with an example
      that reaches it (C5); refinement to [Reach] (C1, C2); bounds on
      the hops it asks for (C9); every reachable document looked up
      (C13); behaviour against the spec: every citation cycle is
      expanded twice (C6), the visited set is not tested in the cites
      direction (C7), budgets (0, 0) still query (C8).
    - [ExpanderOrder]: the same function with the iteration order of the
      target set as a parameter; the equivalence [≡] on expansions
      (equal sets, permuted lookup logs) with its [Proper] instances;
      the result does not depend on the order (C32).
    - [ExpanderExc]: the same function over a lookup that raises, in the
      [outcome] monad, proved equal to the plain model aborted at its
      first failing lookup (C25); negative budgets raise (C26).
    - [Pipeline]: the expander on the endpoint model: never raises, and
      computes reachability along legislation citations of the graph
      (C27); against the flat lookup it misses exactly the legislation
      reached only through case law (C28).
    - [Aggregator]: the two multi-source functions, over answering and
      over raising lookups (C10-C12, C14, C30).
    - [Stats]: [do_stats] over exact rationals [Q] (C15-C17).
    - [Graph]: networkx's undirected graph, its symmetry invariant
      [nx_wf] (kept by [add_edge]), degree (a self-loop counted twice)
      and the degree filter (C18, C19).
    - [Visualise]: Python's [int()] on strings ([py_int_of_str]),
      pyvis's [Network], which adds a number-like id as an int,
      networkx's [Graph.edges] (complete on a graph with [nx_wf]) and
      [visualise_network]: it fails an assertion, with [AssertionError]
      only, exactly when a drawn edge has a number-like end (C29); on
      the graph [generate_network] builds, with identifiers that hold a
      letter as CELEX numbers do, it draws exactly the filtered nodes
      and the links between them (C20).
    - [Main]: [get_indv_stats] (C21), [generate_network], [get_started]
      over raising lookups, and [prep_edges_list] on a file system.  The
      last three carry no theorem: [generate_network] ends in the
      [AttributeError] of line 63 and [prep_edges_list] in the
      [TypeError] of line 41 whatever comes before, which the findings
      record.

    ** Modelling choices

    - Depth budgets are Python ints, modelled as [Z] with [max]/[min]
      written out as in the code, so negative budgets behave as in Python.
    - Python sets are stdpp [gset]s; a [for] over a set iterates
      [elements], one fixed order, where Python follows its hash table.
      [ExpanderOrder] shows the expander's result is the same for every
      enumeration listing each element once (up to the order of the
      lookup log), so fixing [elements] loses nothing there.  The other
      loops over sets (building the networkx graph, the pyvis network)
      keep [elements]; C18 and C20 describe their results by the link
      set alone, so the node sets and the drawn edges (up to their order
      and orientation) do not depend on it either.
    - The recursion is not structural on its arguments; it is a
      [Fixpoint] on fuel.  [Expander.depth_measure c d = Z.to_nat c +
      Z.to_nat d] strictly decreases on every recursive call, so fuel
      [S (depth_measure c d)] is enough; the fuel-free unfolding equation
      and fuel independence are proved, so no theorem depends on fuel.
      The raising expander is related to the plain one at every fuel.
    - Exceptions are values of [outcome]; a function that catches
      nothing binds every call with [≫=], and [try ... except
      ZeroDivisionError] is a [match] on the exception.
    - Float arithmetic of [do_stats] is modelled by exact rationals [Q];
      division by a zero denominator raises [ZeroDivisionError] as
      Python's float division does.
    - Globals the code reads but never defines ([expert_docs], [sources]
      in [get_indv_stats], [g] in [visualise_network]) are arguments.
    - The endpoint and the libraries (networkx, pyvis, Python's
      [int()]) are not code of the repository: they are modelled from
      their documented behaviour and source and marked so in the
      project map.  Strings hold the code points 0-255, so [int()]'s
      Unicode digits and spaces beyond them are not represented.

    ** Not modelled

    - Printing (the reports of [do_stats], the sweep lines' format
      strings, line 47 of main.py): output only.
    - The GEXF export: [nx.write_gex] does not exist, so line 63 raises
      [AttributeError], which is modelled; no file is written.
    - The HTML page [nt.show] writes, and the HTTP transport of the
      query: the theorems are about the network and the answers.
    - General SPARQL: the endpoint model reads only queries of the
      template the code sends.
    - main.py as committed does not parse (lines 1-2, line 66); its
      functions are modelled as their bodies read. *)

From stdpp Require Export base gmap sets list strings.
From Stdlib Require Export ZArith.

(** CELEX identifiers are Python strings; a link [(a, b)] means [a]
    cites [b]. *)
Abbreviation celex := string (only parsing).
Abbreviation link := (string * string)%type (only parsing).

Declare Scope cite_scope.
Delimit Scope cite_scope with cite.
Notation "a ⇝ b" := (@pair string string a b)
  (at level 20, no associativity) : cite_scope.
Open Scope cite_scope.

(** ** Python exceptions and the error monad *)

(** The exceptions the code can raise: Python's own, and the two a
    [SPARQLWrapper] query raises, [QueryBadFormed] when the endpoint
    rejects the query text and [URLError] when the request fails. *)
Inductive py_exc :=
| ZeroDivisionError
| AttributeError
| TypeError
| AssertionError
| QueryBadFormed
| URLError.

#[export] Instance py_exc_eq_dec : EqDecision py_exc.
Proof. solve_decision. Defined.

Inductive outcome (A : Type) : Type :=
| Ok (a : A)
| Raise (e : py_exc).
Arguments Ok {A} a.
Arguments Raise {A} e.

#[export] Instance outcome_eq_dec {A} `{EqDecision A} : EqDecision (outcome A).
Proof. solve_decision. Defined.

#[export] Instance outcome_ret : MRet outcome := λ A a, Ok a.
#[export] Instance outcome_bind : MBind outcome :=
  λ A B f m, match m with Ok a => f a | Raise e => Raise e end.

Lemma outcome_bind_Ok {A B} (a : A) (f : A → outcome B) :
  (Ok a ≫= f) = f a.
Proof. reflexivity. Qed.

Lemma outcome_bind_Raise {A B} (e : py_exc) (f : A → outcome B) :
  (Raise e ≫= f) = Raise e.
Proof. reflexivity. Qed.

Lemma outcome_bind_eq_Ok {A B} (m : outcome A) (f : A → outcome B) b :
  (m ≫= f) = Ok b ↔ ∃ a, m = Ok a ∧ f a = Ok b.
Proof. destruct m; simpl; split; [eauto|naive_solver|done|naive_solver]. Qed.

(** A Python [for] loop whose body may raise: the first exception
    leaves the loop and the function. *)
Fixpoint outcome_fold {A B} (f : A → B → outcome A) (acc : A) (l : list B)
    : outcome A :=
  match l with
  | [] => Ok acc
  | x :: l => acc' ← f acc x; outcome_fold f acc' l
  end.

Lemma outcome_fold_Ok {A B} (f : A → B → outcome A) (g : A → B → A) acc l :
  (∀ acc x, x ∈ l → f acc x = Ok (g acc x)) →
  outcome_fold f acc l = Ok (foldl g acc l).
Proof.
  revert acc. induction l as [|x l IH]; intros acc Hf; [done|]. simpl.
  rewrite Hf by (by left). apply IH. intros a y Hy. apply Hf. by right.
Qed.

Lemma mapM_outcome_Ok {A B} (f : A → outcome B) (g : A → B) (l : list A) :
  (∀ x, x ∈ l → f x = Ok (g x)) → mapM f l = Ok (g <$> l).
Proof.
  induction l as [|x l IH]; intros Hf; [done|]. simpl.
  rewrite Hf by (by left). simpl. rewrite IH; [done|]. intros y Hy. apply Hf. by right.
Qed.

Lemma length_bind_const {A B} (f : A → list B) (l : list A) k :
  (∀ x, length (f x) = k) → length (l ≫= f) = (length l * k)%nat.
Proof.
  intros Hf. induction l as [|x l IH]; [done|]. csimpl.
  rewrite length_app, Hf, IH. lia.
Qed.

Create HintDb cite.
Create Rewrite HintDb cite_rw.
#[export] Hint Rewrite @outcome_bind_Ok @outcome_bind_Raise : cite_rw.

(** ** Lists *)

Lemma elem_of_join_map {A B} (f : A → list B) (l : list A) y :
  y ∈ mjoin (map f l) ↔ ∃ x, x ∈ l ∧ y ∈ f x.
Proof.
  induction l as [|x l IH]; simpl; [set_solver|].
  rewrite elem_of_app, IH. setoid_rewrite elem_of_cons. naive_solver.
Qed.

(** A [for] loop preserves whatever each iteration preserves. *)
Lemma foldl_invariant {A B} (P : A → Prop) (f : A → B → A) (l : list B) acc :
  P acc → (∀ a x, x ∈ l → P a → P (f a x)) → P (foldl f acc l).
Proof.
  revert acc. induction l as [|x l IH]; intros acc Hacc Hf; simpl; [done|].
  apply IH; [apply Hf; [left|done]|]. intros a y Hy. apply Hf. by right.
Qed.

Lemma join_map_submseteq {A B} (f : A → list B) (l : list A) x :
  x ∈ l → f x ⊆+ mjoin (map f l).
Proof.
  induction l as [|y l IH]; simpl; [by intros ?%elem_of_nil|].
  intros [->|Hx]%elem_of_cons; [by apply submseteq_inserts_r|].
  by apply submseteq_inserts_l, IH.
Qed.

Lemma length_join_map_le {A B} (f : A → list B) (l : list A) k :
  (∀ x, x ∈ l → length (f x) ≤ k) → length (mjoin (map f l)) ≤ length l * k.
Proof.
  induction l as [|x l IH]; intros Hf; simpl; [lia|].
  rewrite length_app.
  assert (length (f x) ≤ k) by (apply Hf; by left).
  assert (length (mjoin (map f l)) ≤ length l * k) by (apply IH; set_solver). lia.
Qed.

Lemma exists_elem_of_cons {A} (P : A → Prop) x l :
  (∃ y, y ∈ x :: l ∧ P y) ↔ P x ∨ ∃ y, y ∈ l ∧ P y.
Proof. setoid_rewrite elem_of_cons. naive_solver. Qed.

Lemma join_map_nil {A B} (l : list A) : mjoin (map (λ _, @nil B) l) = [].
Proof. by induction l. Qed.

(** ** Depth budgets *)

(** Python's truthiness of an int. *)
Definition py_truthy (z : Z) : bool := negb (z =? 0)%Z.

Lemma py_truthy_spec z : py_truthy z = true ↔ z ≠ 0%Z.
Proof. unfold py_truthy. rewrite negb_true_iff, Z.eqb_neq. done. Qed.

Lemma max_pred_nonneg z : (0 ≤ Z.max (z - 1) 0)%Z.
Proof. lia. Qed.

Lemma to_nat_max_pred z :
  Z.to_nat (Z.max (z - 1) 0) = Nat.pred (Z.to_nat z).
Proof. lia. Qed.

#[export] Hint Resolve max_pred_nonneg : cite.
#[export] Hint Rewrite to_nat_max_pred : cite_rw.

(** [bool_decide] of a strict inequality on budgets, as the [if] tests
    of the code read. *)
Ltac case_budget :=
  repeat match goal with
  | |- context [bool_decide (?a < ?b)%Z] =>
      destruct (bool_decide_reflect (a < b)%Z)
  | |- context [py_truthy ?z] =>
      destruct (py_truthy z) eqn:?
  end.
