(* ===== verification/Reach.v ===== *)
(** * Bounded reachability: the abstract specification of the expander

    [reach_within step n s t]: [t] is reached from [s] by at most [n]
    hops of [step]; [edge_within step n s a b]: the hop [a -> b] is taken
    by some path of at most [n] hops from [s] (its source is at most
    [n - 1] hops away).  A cites-only expansion of depth [n] must return
    exactly the nodes [reach_within] and the edges [edge_within] of the
    one-hop lookup; the cited-only expansion the same of the reverse
    lookup.  The [direction] tags the two explorations the expander
    keeps apart (spec, design notes). *)

From S2P Require Import Prelude.

Inductive direction := Cites | Cited.

#[export] Instance direction_eq_dec : EqDecision direction.
Proof. solve_decision. Defined.

Section Reach.
Context {A : Type} `{Countable A} (step : A → gset A).

Inductive reach_within : nat → A → A → Prop :=
| reach_here n s : reach_within n s s
| reach_hop n s y t :
    y ∈ step s → reach_within n y t → reach_within (S n) s t.

Definition edge_within (n : nat) (s a b : A) : Prop :=
  ∃ m, n = S m ∧ reach_within m s a ∧ b ∈ step a.

Lemma reach_within_0 s t : reach_within 0 s t ↔ t = s.
Proof. split; [inversion 1; done | intros ->; constructor]. Qed.

Lemma reach_within_S n s t :
  reach_within (S n) s t ↔ t = s ∨ ∃ y, y ∈ step s ∧ reach_within n y t.
Proof.
  split.
  - inversion 1; subst; eauto.
  - intros [->|(y & Hy & Hr)]; econstructor; eauto.
Qed.

Lemma reach_within_mono n m s t :
  n ≤ m → reach_within n s t → reach_within m s t.
Proof.
  intros Hle Hr. revert m Hle.
  induction Hr as [n s|n s y t Hy Hr IH]; intros m Hle; [constructor|].
  destruct m as [|m]; [lia|]. econstructor; [done|]. apply IH. lia.
Qed.

(** A path can always drop a leading self-loop. *)
Lemma reach_within_skip_self n s t :
  reach_within n s t →
  t = s ∨ ∃ m y, n = S m ∧ y ∈ step s ∧ y ≠ s ∧ reach_within m y t.
Proof.
  induction 1 as [n s|n s y t Hy Hr IH]; [by left|].
  destruct (decide (y = s)) as [->|Hne]; [|right; eauto 10].
  destruct IH as [->|(m & y' & -> & Hy' & Hne & Hr')]; [by left|].
  right. exists (S m), y'. split_and!; eauto using reach_within_mono.
Qed.

(** One unfolding of [reach_within], where the recursion into a
    successor is allowed under a guard [P] that only a self-loop can
    fail: the shape of the expander's loop. *)
Lemma reach_within_S_guarded (P : A → Prop) n s t :
  (∀ y, y ≠ s → P y) →
  reach_within (S n) s t ↔
  t = s ∨ ∃ y, y ∈ step s ∧ (t = y ∨ (n ≠ 0 ∧ P y ∧ reach_within n y t)).
Proof.
  intros HP. split.
  - intros [->|(m & y & [= ->] & Hy & Hne & Hr)]%reach_within_skip_self;
      [by left|right].
    exists y. split; [done|].
    destruct m as [|m]; [apply reach_within_0 in Hr; by left|].
    right. split_and!; eauto.
  - intros [->|(y & Hy & [->|(_ & _ & Hr)])]; [constructor| |];
      econstructor; eauto using reach_within.
Qed.

Lemma edge_within_0 s a b : ¬ edge_within 0 s a b.
Proof. intros (m & ? & _). lia. Qed.

Lemma edge_within_S_guarded (P : A → Prop) n s a b :
  (∀ y, y ≠ s → P y) →
  edge_within (S n) s a b ↔
  (a = s ∧ b ∈ step s) ∨
  ∃ y, y ∈ step s ∧ n ≠ 0 ∧ P y ∧ edge_within n y a b.
Proof.
  intros HP. unfold edge_within. split.
  - intros (m & [= <-] & Hr & Hb).
    apply reach_within_skip_self in Hr as [->|(k & y & -> & Hy & Hne & Hr)];
      [by left|right].
    exists y. split_and!; eauto.
  - intros [[-> Hb]|(y & Hy & Hn & _ & k & -> & Hr & Hb)].
    + exists n. split_and!; [done|constructor|done].
    + exists (S k). split_and!; [done| |done]. econstructor; eauto.
Qed.
End Reach.

#[export] Hint Constructors reach_within : cite.

Section Ext.
Context {A : Type} `{Countable A} (step1 step2 : A → gset A) (P : A → Prop).
Hypothesis Hagree : ∀ y, P y → step1 y = step2 y.
Hypothesis Hclosed : ∀ y z, P y → z ∈ step1 y → P z.

(** Paths of [step1] from a start in [P] stay in [P]. *)
Lemma reach_within_closed n s t : P s → reach_within step1 n s t → P t.
Proof. intros Hs Hr. revert Hs. induction Hr; eauto. Qed.

(** Two step functions that agree on a set closed under the first
    reach the same documents from a start in it. *)
Lemma reach_within_ext_on n s t :
  P s → reach_within step1 n s t ↔ reach_within step2 n s t.
Proof.
  intros Hs. split; intros Hr; revert Hs; induction Hr as [|n s y t Hy Hr IH];
    intros Hs; [constructor| |constructor|].
  - econstructor; [by rewrite <-Hagree|]. eauto.
  - rewrite <-Hagree in Hy by done. econstructor; eauto.
Qed.

Lemma edge_within_ext_on n s a b :
  P s → edge_within step1 n s a b ↔ edge_within step2 n s a b.
Proof.
  intros Hs. unfold edge_within.
  split; intros (m & -> & Hr & Hb); exists m; split_and!; try done.
  - by apply reach_within_ext_on.
  - rewrite <-Hagree; [done|]. by eapply reach_within_closed.
  - by apply reach_within_ext_on.
  - apply reach_within_ext_on in Hr; [|done].
    rewrite Hagree; [done|]. by eapply reach_within_closed.
Qed.
End Ext.
