(* ===== verification/Sparql.v ===== *)
(** * The query of [get_citations] and the endpoint that answers it
      (helper_functions.py 13-35)

    [sparql_query] is the text the code hands to [sparql.setQuery]: the
    template of lines 15-34 with [%]-formatting, the CELEX identifier
    pasted between double quotes as an [xsd:string] literal and the two
    depths as the upper bounds of the property paths
    [cdm:work_cites_work{1,%i}].  [py_format_int] is Python's [%i], the
    Standard Library's decimal printer.

    The endpoint is not code of the repository.  [read_query] reads a
    query the way the SPARQL grammar reads queries of this template (a
    [STRING_LITERAL2] runs to the next double quote and holds no
    backslash or line break; a path bound is an unsigned [INTEGER]);
    other texts are rejected.  [sparql_service] answers a query it reads
    on a [citation_kg], the [cdm:work_cites_work] relation between works
    named by their CELEX identifiers: the identifiers [1..c] hops forward
    from the first literal and [1..d] hops backward from the second
    ([{1,0}] matches nothing); a query it rejects raises
    [QueryBadFormed], as [SPARQLWrapper] does on the endpoint's HTTP 400
    answer. *)

From S2P Require Import Prelude Reach.
From Stdlib Require Import Ascii DecimalString DecimalZ.

(** ** The query text of lines 15-34 *)

Definition dquote : ascii := "034"%char.
Definition backslash : ascii := "092"%char.
Definition line_feed : ascii := "010"%char.
Definition carriage_return : ascii := "013"%char.
Definition close_brace : ascii := "125"%char.

(** Python's ['%i' % z]: the decimal digits, after a ['-'] when [z] is
    negative. *)
Definition py_format_int (z : Z) : string :=
  NilZero.string_of_int (Z.to_int z).

(** ['"%s"' % s]. *)
Definition quoted (s : string) : string :=
  String dquote (s +:+ String dquote EmptyString).

(** The template, cut at its four conversions; a ['}'] closes each
    [%i]. *)
Definition query_head : string := "
        prefix cdm: <http://publications.europa.eu/ontology/cdm#>
        prefix xsd: <http://www.w3.org/2001/XMLSchema#>

        SELECT DISTINCT * WHERE
        {
        {
            SELECT ?name2 WHERE {
                ?doc cdm:resource_legal_id_celex ".

Definition query_cites_path : string := "^^xsd:string .
                ?doc cdm:work_cites_work{1,".

Definition query_union : string := " ?cited .
                ?cited cdm:resource_legal_id_celex ?name2 .
            }
        } UNION {
            SELECT ?name2 WHERE {
                ?doc cdm:resource_legal_id_celex ".

Definition query_cited_path : string := "^^xsd:string .
                ?cited cdm:work_cites_work{1,".

Definition query_tail : string := " ?doc .
                ?cited cdm:resource_legal_id_celex ?name2 .
            }
        }
        }".

(** Lines 15-34: ['''...''' % (source_celex, cites_depth,
    source_celex, cited_depth)]. *)
Definition sparql_query (source_celex : celex) (cites_depth cited_depth : Z)
    : string :=
  query_head +:+ quoted source_celex +:+ query_cites_path +:+
  py_format_int cites_depth +:+ String close_brace (
  query_union +:+ quoted source_celex +:+ query_cited_path +:+
  py_format_int cited_depth +:+ String close_brace query_tail).

(** ** The endpoint's reading of a query *)

(** The text after the prefix [p], if [s] starts with it. *)
Fixpoint strip_prefix (p s : string) : option string :=
  match p, s with
  | EmptyString, _ => Some s
  | String a p', String b s' => if Ascii.eqb a b then strip_prefix p' s' else None
  | String _ _, EmptyString => None
  end.

(** The text before the first [c], and the text after it if [c] occurs. *)
Fixpoint split_at (c : ascii) (s : string) : string * option string :=
  match s with
  | EmptyString => (EmptyString, None)
  | String a s' =>
      if Ascii.eqb a c then (EmptyString, Some s')
      else let '(pre, post) := split_at c s' in (String a pre, post)
  end.

Fixpoint str_forallb (f : ascii → bool) (s : string) : bool :=
  match s with
  | EmptyString => true
  | String a s' => f a && str_forallb f s'
  end.

(** A character a [STRING_LITERAL2] holds unescaped. *)
Definition literal_char (a : ascii) : bool :=
  negb (Ascii.eqb a dquote || Ascii.eqb a backslash ||
        Ascii.eqb a line_feed || Ascii.eqb a carriage_return).

(** An identifier that [quoted] turns into a string literal. *)
Definition literal_ok (s : string) : bool := str_forallb literal_char s.

(** [STRING_LITERAL2]: a double quote, the characters up to the next
    one, that double quote. *)
Definition read_literal (s : string) : option (string * string) :=
  rest ← strip_prefix (String dquote EmptyString) s;
  match split_at dquote rest with
  | (lit, Some rest') => if literal_ok lit then Some (lit, rest') else None
  | (_, None) => None
  end.

(** A path bound: an unsigned [INTEGER], then the closing ['}']. *)
Definition read_bound (s : string) : option (Z * string) :=
  match split_at close_brace s with
  | (digits, Some rest) =>
      u ← NilZero.uint_of_string digits; Some (Z.of_uint u, rest)
  | (_, None) => None
  end.

(** A query of the template: the two literals and the two bounds. *)
Definition read_query (q : string) : option (celex * Z * celex * Z) :=
  r ← strip_prefix query_head q;
  '(s1, r) ← read_literal r;
  r ← strip_prefix query_cites_path r;
  '(c, r) ← read_bound r;
  r ← strip_prefix query_union r;
  '(s2, r) ← read_literal r;
  r ← strip_prefix query_cited_path r;
  '(d, r) ← read_bound r;
  r ← strip_prefix query_tail r;
  match r with EmptyString => Some (s1, c, s2, d) | String _ _ => None end.

(** ** The knowledge graph and the endpoint *)

(** [cdm:work_cites_work] between works, each named by its CELEX
    identifier. *)
Abbreviation citation_kg := (gmap celex (gset celex)).

Definition kg_cites (kg : citation_kg) (x : celex) : gset celex :=
  default ∅ (kg !! x).

Definition kg_cited_by (kg : citation_kg) (x : celex) : gset celex :=
  dom (filter (λ yts : celex * gset celex, x ∈ yts.2) kg).

(** The works [1..n] hops of [step] away: the property path [p{1,n}]. *)
Fixpoint hops (step : celex → gset celex) (n : nat) (x : celex) : gset celex :=
  match n with
  | O => ∅
  | S n => step x ∪ ⋃ (hops step n <$> elements (step x))
  end.

(** The endpoint: the [name2] values of the result bindings of a query
    it reads ([SELECT DISTINCT], in some order), [QueryBadFormed]
    otherwise. *)
Definition sparql_service (kg : citation_kg) (q : string) : outcome (list celex) :=
  match read_query q with
  | Some (s1, c, s2, d) =>
      Ok (elements (hops (kg_cites kg) (Z.to_nat c) s1 ∪
                    hops (kg_cited_by kg) (Z.to_nat d) s2))
  | None => Raise QueryBadFormed
  end.

(** Identifiers the knowledge graph holds are literal-safe. *)
Definition kg_wf (kg : citation_kg) : Prop :=
  map_Forall (λ x ts, literal_ok x = true ∧ set_Forall (λ t, literal_ok t = true) ts) kg.

(** ** Lemmas on the text *)

Lemma bind_Some {A B} (x : A) (f : A → option B) : (Some x ≫= f) = f x.
Proof. reflexivity. Qed.

Lemma bind_None {A B} (f : A → option B) : (None ≫= f) = None.
Proof. reflexivity. Qed.

Lemma append_assoc_str (x y z : string) : (x +:+ y) +:+ z = x +:+ (y +:+ z).
Proof. induction x as [|a x IH]; [done|]. exact (f_equal (String a) IH). Qed.

Lemma strip_prefix_app p s : strip_prefix p (p +:+ s) = Some s.
Proof. induction p as [|a p IH]; simpl; [done|by rewrite Ascii.eqb_refl]. Qed.

Lemma str_forallb_impl (f g : ascii → bool) s :
  (∀ a, f a = true → g a = true) → str_forallb f s = true → str_forallb g s = true.
Proof.
  intros Hfg. induction s as [|a s IH]; simpl; [done|].
  rewrite !andb_true_iff. intros [Ha Hs]. auto.
Qed.

(** Splitting at the first [c] of [x ++ c :: y], when [x] holds no [c]. *)
Lemma split_at_app c x y :
  str_forallb (λ a, negb (Ascii.eqb a c)) x = true →
  split_at c (x +:+ String c y) = (x, Some y).
Proof.
  induction x as [|a x IH]; simpl; [by rewrite Ascii.eqb_refl|].
  rewrite andb_true_iff, negb_true_iff. intros [-> Hx]. by rewrite IH.
Qed.

Lemma literal_ok_no_quote s :
  literal_ok s = true → str_forallb (λ a, negb (Ascii.eqb a dquote)) s = true.
Proof.
  apply str_forallb_impl. intros a. unfold literal_char.
  by destruct (Ascii.eqb a dquote).
Qed.

Lemma read_literal_quoted s rest :
  literal_ok s = true → read_literal (quoted s +:+ rest) = Some (s, rest).
Proof.
  intros Hs. unfold read_literal, quoted. simpl.
  rewrite append_assoc_str.
  change (String dquote EmptyString +:+ rest) with (String dquote rest).
  rewrite split_at_app by by apply literal_ok_no_quote.
  by rewrite Hs.
Qed.

Lemma string_of_uint_no_brace u :
  str_forallb (λ a, negb (Ascii.eqb a close_brace)) (NilEmpty.string_of_uint u) = true.
Proof. induction u; simpl; rewrite ?IHu; reflexivity. Qed.

Lemma py_format_int_no_brace z :
  str_forallb (λ a, negb (Ascii.eqb a close_brace)) (py_format_int z) = true.
Proof.
  unfold py_format_int, NilZero.string_of_int, NilZero.string_of_uint.
  destruct (Z.to_int z) as [[]|[]]; simpl; rewrite ?string_of_uint_no_brace; done.
Qed.

(** [%i] of a non-negative int reads back as that int ... *)
Lemma read_bound_format c rest :
  (0 ≤ c)%Z → read_bound (py_format_int c +:+ String close_brace rest) = Some (c, rest).
Proof.
  intros Hc. unfold read_bound. rewrite split_at_app by apply py_format_int_no_brace.
  pose proof (DecimalZ.of_to c) as Hof. unfold py_format_int.
  destruct (Z.to_int c) as [u|u] eqn:E.
  - simpl in Hof |- *. destruct u; [by rewrite <-Hof| rewrite NilZero.usu;
      [simpl; by rewrite Hof|done]..].
  - destruct c; simpl in E; discriminate || lia.
Qed.

(** ... and of a negative one is no [INTEGER]. *)
Lemma read_bound_negative c rest :
  (c < 0)%Z → read_bound (py_format_int c +:+ String close_brace rest) = None.
Proof.
  intros Hc. unfold read_bound. rewrite split_at_app by apply py_format_int_no_brace.
  destruct c as [|p|p]; [lia|lia|]. simpl.
  by destruct (NilEmpty.uint_of_string _).
Qed.

(** ** Lemmas on the knowledge graph *)

(** [p{1,n}] is a first hop followed by at most [n - 1] more. *)
Lemma hops_spec step n x y :
  y ∈ hops step n x ↔ ∃ m z, n = S m ∧ z ∈ step x ∧ reach_within step m z y.
Proof.
  revert x. induction n as [|n IH]; intros x; simpl.
  - split; [set_solver|]. by intros (m & z & ? & _).
  - rewrite elem_of_union, elem_of_union_list. setoid_rewrite list_elem_of_fmap.
    setoid_rewrite elem_of_elements. split.
    + intros [Hy|(X & (z & -> & Hz) & Hy)]; [exists n, y; eauto with cite|].
      apply IH in Hy as (m & z' & -> & Hz' & Hr). eauto 10 with cite.
    + intros (m & z & [= <-] & Hz & Hr). inversion Hr; subst; [by left|].
      right. eexists; split; [by eexists|]. apply IH. eauto.
Qed.

(** Whatever a path reaches beyond its start is the target of a hop. *)
Lemma reach_within_last (step : celex → gset celex) n x y :
  reach_within step n x y → y = x ∨ ∃ z, y ∈ step z.
Proof. induction 1 as [|n s z t Hz Hr [->|?]]; eauto. Qed.

Lemma hops_target step n x y : y ∈ hops step n x → ∃ z, y ∈ step z.
Proof.
  intros (m & z & _ & Hz & Hr)%hops_spec.
  destruct (reach_within_last _ _ _ _ Hr) as [->|]; eauto.
Qed.

(** The identifiers of a well-formed knowledge graph are literal-safe,
    so are the answers to every query. *)
Lemma kg_answer_ok kg n m x1 x2 y :
  kg_wf kg →
  y ∈ hops (kg_cites kg) n x1 ∪ hops (kg_cited_by kg) m x2 → literal_ok y = true.
Proof.
  intros Hwf [(z & Hy)%hops_target|(z & Hy)%hops_target]%elem_of_union.
  - unfold kg_cites in Hy. destruct (kg !! z) as [ts|] eqn:Hz; simpl in Hy;
      [|set_solver]. exact (proj2 (Hwf z ts Hz) y Hy).
  - unfold kg_cited_by in Hy. apply elem_of_dom in Hy as [ts Hy].
    apply map_lookup_filter_Some in Hy as [Hy _]. exact (proj1 (Hwf y ts Hy)).
Qed.

Lemma strip_prefix_self p : strip_prefix p p = Some EmptyString.
Proof. induction p as [|a p IH]; simpl; [done|by rewrite Ascii.eqb_refl]. Qed.

(** Reading the template's fixed text and a well-formed literal. *)
Ltac read_template :=
  repeat first [ rewrite strip_prefix_app | rewrite strip_prefix_self
               | rewrite read_literal_quoted by done
               | rewrite bind_Some | progress cbn beta iota ].

(** ** The round trip of the query text *)

(** C23 (roundtrip): the endpoint reads back from the query text exactly
    the identifier, twice, and the two depths the code formatted into
    it, whenever the identifier holds no double quote, backslash or line
    break and the depths are non-negative. *)
Theorem sparql_query_roundtrip s c d :
  literal_ok s = true → (0 ≤ c)%Z → (0 ≤ d)%Z →
  read_query (sparql_query s c d) = Some (s, c, s, d).
Proof.
  intros Hs Hc Hd. unfold read_query, sparql_query.
  read_template. rewrite read_bound_format by done.
  read_template. rewrite read_bound_format by done.
  by read_template.
Qed.

(** A negative depth is formatted with its sign, which no path bound
    reads: the endpoint rejects the query. *)
Lemma sparql_query_negative s c d :
  literal_ok s = true → (c < 0 ∨ d < 0)%Z → read_query (sparql_query s c d) = None.
Proof.
  intros Hs Hcd. unfold read_query, sparql_query. read_template.
  destruct (decide (c < 0)%Z) as [Hc|Hc];
    [by rewrite read_bound_negative|rewrite read_bound_format by lia].
  read_template. rewrite read_bound_negative by lia. done.
Qed.

(** ** The endpoint on the code's queries *)

Lemma sparql_service_query kg s c d :
  literal_ok s = true → (0 ≤ c)%Z → (0 ≤ d)%Z →
  sparql_service kg (sparql_query s c d) =
  Ok (elements (hops (kg_cites kg) (Z.to_nat c) s ∪ hops (kg_cited_by kg) (Z.to_nat d) s)).
Proof. intros. unfold sparql_service. by rewrite sparql_query_roundtrip. Qed.

Lemma sparql_service_negative kg s c d :
  literal_ok s = true → (c < 0 ∨ d < 0)%Z →
  sparql_service kg (sparql_query s c d) = Raise QueryBadFormed.
Proof. intros. unfold sparql_service. by rewrite sparql_query_negative. Qed.





Lemma sparql_query_roundtrip_witness :
  literal_ok "32021R0664" = true ∧ (0 ≤ 2)%Z ∧ (0 ≤ 0)%Z ∧
  read_query (sparql_query "32021R0664" 2 0) = Some ("32021R0664", 2%Z, "32021R0664", 0%Z).
Proof.
  assert (Hs : literal_ok "32021R0664" = true) by reflexivity.
  assert (Hc : (0 ≤ 2)%Z) by lia. assert (Hd : (0 ≤ 0)%Z) by lia.
  split_and!; [exact Hs|exact Hc|exact Hd|].
  exact (sparql_query_roundtrip _ _ _ Hs Hc Hd).
Defined.
