(* ===== verification/Lookup.v ===== *)
(** * CitationLookup: [get_citations] (helper_functions.py 3-43)

    The function builds the query text ([Sparql.sparql_query]), sends it
    to the endpoint ([sparql.queryAndConvert()]), collects the [name2]
    value of every binding into a set and keeps the legislation
    identifiers ([startswith('3')]).  An [endpoint] is any service from
    query text to bindings or exception; [Sparql.sparql_service] is the
    model of the real one over a knowledge graph. *)

From S2P Require Import Prelude Reach Sparql.

(** The category test of line 41 and line 102. *)
Definition is_legislation (el : celex) : bool := String.prefix "3" el.

(** The endpoint of lines 13-35: the query text to the [name2] value of
    every binding of [ret['results']['bindings']], or the exception the
    request raises. *)
Definition endpoint := string → outcome (list celex).

(** Lines 37-40: [targets = set(); for bind in ...: targets.add(target)]. *)
Definition collect_targets (bindings : list celex) : gset celex :=
  foldl (λ targets target, targets ∪ {[target]}) ∅ bindings.

(** Lines 3-43. *)
Definition get_citations (sparql : endpoint) (source_celex : celex)
    (cites_depth cited_depth : Z) : outcome (gset celex) :=
  bindings ← sparql (sparql_query source_celex cites_depth cited_depth);
  let targets := collect_targets bindings in
  Ok (filter (λ el, is_legislation el = true) targets).

(** The answers of a lookup that returned; none when it raised. *)
Definition ok_answers (r : outcome (gset celex)) : gset celex :=
  match r with Ok t => t | Raise _ => ∅ end.

(** The legislation among the works [1..c] hops forward of [s] and
    [1..d] hops backward: what the query asks the knowledge graph. *)
Definition kg_answers (kg : citation_kg) (s : celex) (c d : Z) : gset celex :=
  filter (λ el, is_legislation el = true)
    (hops (kg_cites kg) (Z.to_nat c) s ∪ hops (kg_cited_by kg) (Z.to_nat d) s).

Lemma elem_of_collect_targets bindings t :
  t ∈ collect_targets bindings ↔ t ∈ bindings.
Proof.
  unfold collect_targets.
  cut (∀ acc : gset celex,
         t ∈ foldl (λ targets target, targets ∪ {[target]}) acc bindings
              ↔ t ∈ acc ∨ t ∈ bindings).
  { intros H. rewrite H. set_solver. }
  induction bindings as [|b bs IH]; intros acc; simpl.
  - set_solver.
  - rewrite IH. set_solver.
Qed.

(** C22: [get_citations] sends the formatted query; when the endpoint
    answers, it returns exactly the legislation identifiers among the
    bindings, and when the request raises, it raises the same
    exception. *)
Theorem get_citations_spec sparql s c d :
  match sparql (sparql_query s c d) with
  | Ok bindings => ∃ T, get_citations sparql s c d = Ok T ∧
                        ∀ t, t ∈ T ↔ t ∈ bindings ∧ is_legislation t = true
  | Raise e => get_citations sparql s c d = Raise e
  end.
Proof.
  unfold get_citations. destruct (sparql _) as [bindings|e]; simpl; [|done].
  eexists; split; [done|]. intros t.
  rewrite elem_of_filter, elem_of_collect_targets. tauto.
Qed.

(** Over the knowledge graph, a lookup with non-negative depths
    returns the legislation the query's two property paths reach. *)
Lemma get_citations_kg_answers kg s c d :
  literal_ok s = true → (0 ≤ c)%Z → (0 ≤ d)%Z →
  get_citations (sparql_service kg) s c d = Ok (kg_answers kg s c d).
Proof.
  intros Hs Hc Hd. unfold get_citations. rewrite sparql_service_query by done.
  simpl. f_equal. apply set_eq. intros t. unfold kg_answers.
  rewrite !elem_of_filter, elem_of_collect_targets, elem_of_elements. done.
Qed.

Lemma get_citations_negative kg s c d :
  literal_ok s = true → (c < 0 ∨ d < 0)%Z →
  get_citations (sparql_service kg) s c d = Raise QueryBadFormed.
Proof.
  intros Hs Hcd. unfold get_citations. by rewrite sparql_service_negative.
Qed.

Lemma elem_of_kg_answers kg s c d t :
  t ∈ kg_answers kg s c d ↔
  is_legislation t = true ∧
  ((∃ m z, Z.to_nat c = S m ∧ z ∈ kg_cites kg s ∧ reach_within (kg_cites kg) m z t) ∨
   (∃ m z, Z.to_nat d = S m ∧ z ∈ kg_cited_by kg s ∧ reach_within (kg_cited_by kg) m z t)).
Proof. unfold kg_answers. by rewrite elem_of_filter, elem_of_union, !hops_spec. Qed.

(** C24 (refinement): on the model of the endpoint, [get_citations]
    with non-negative depths returns the legislation documents reached
    from the source by one to [cites_depth] citing hops, or by one to
    [cited_depth] hops against the citations, through any documents of
    the graph (case law included). *)
Theorem get_citations_kg kg s c d t :
  literal_ok s = true → (0 ≤ c)%Z → (0 ≤ d)%Z →
  get_citations (sparql_service kg) s c d = Ok (kg_answers kg s c d) ∧
  (t ∈ kg_answers kg s c d ↔
   is_legislation t = true ∧
   ((∃ m z, Z.to_nat c = S m ∧ z ∈ kg_cites kg s ∧ reach_within (kg_cites kg) m z t) ∨
    (∃ m z, Z.to_nat d = S m ∧ z ∈ kg_cited_by kg s ∧ reach_within (kg_cited_by kg) m z t))).
Proof.
  intros Hs Hc Hd. split; [by apply get_citations_kg_answers|apply elem_of_kg_answers].
Qed.

Example get_citations_drops_case_law :
  get_citations (λ _, Ok ["32019R0945"; "62018CJ0311"; "32019R0945"])
    "32021R0664" 1 0 = Ok {[ "32019R0945" ]}.
Proof. vm_compute. reflexivity. Qed.

Lemma get_citations_kg_witness :
  literal_ok "3A" = true ∧ (0 ≤ 2)%Z ∧ (0 ≤ 0)%Z ∧
  get_citations (sparql_service (<["3A" := {["6X"]}]> (<["6X" := {["3B"]}]> ∅)))
    "3A" 2 0 = Ok (kg_answers (<["3A" := {["6X"]}]> (<["6X" := {["3B"]}]> ∅)) "3A" 2 0) ∧
  ("3B" ∈ kg_answers (<["3A" := {["6X"]}]> (<["6X" := {["3B"]}]> ∅)) "3A" 2 0 ↔
   is_legislation "3B" = true ∧
   ((∃ m z, Z.to_nat 2 = S m ∧
       z ∈ kg_cites (<["3A" := {["6X"]}]> (<["6X" := {["3B"]}]> ∅)) "3A" ∧
       reach_within (kg_cites (<["3A" := {["6X"]}]> (<["6X" := {["3B"]}]> ∅))) m z "3B") ∨
    (∃ m z, Z.to_nat 0 = S m ∧
       z ∈ kg_cited_by (<["3A" := {["6X"]}]> (<["6X" := {["3B"]}]> ∅)) "3A" ∧
       reach_within (kg_cited_by (<["3A" := {["6X"]}]> (<["6X" := {["3B"]}]> ∅))) m z "3B"))).
Proof.
  assert (Hs : literal_ok "3A" = true) by reflexivity.
  assert (Hc : (0 ≤ 2)%Z) by lia. assert (Hd : (0 ≤ 0)%Z) by lia.
  split_and!; [exact Hs|exact Hc|exact Hd|..];
    [exact (proj1 (get_citations_kg _ "3A" 2 0 "3B" Hs Hc Hd))
    |exact (proj2 (get_citations_kg _ "3A" 2 0 "3B" Hs Hc Hd))].
Defined.
