(* ===== verification/Expander.v ===== *)
(** * CitationExpander: [get_citations_structure] (helper_functions.py 65-95)

    The state of one call is the pair [(links, nodes)] of the code, kept
    in an [expansion] record together with [exp_calls], the log of the
    [get_citations] requests the call issues, in order (the network I/O
    of the function).  The loop over [targets] is [visit_target] folded
    over [elements targets]; the function body is [structure_body],
    parameterised by the recursive call; [structure_fuel] ties the knot
    on fuel and [get_citations_structure] supplies enough of it.

    The lookup is a section variable: the code calls [get_citations] of
    the same module; [ExpanderExc] lifts the expander to a lookup that
    raises, and [Pipeline] runs it on [get_citations] over the endpoint
    model. *)

From S2P Require Import Prelude Reach Sparql Lookup.

Local Open Scope Z_scope.

Record expansion := Expansion {
  exp_links : gset link;
  exp_nodes : gset celex;
  exp_calls : list (celex * Z * Z)
}.

(** [cites.union(cited), nodes1.union(nodes2)] (line 69), and the
    [links.union(new_links)], [nodes.union(new_nodes)] of lines 92-93. *)
Definition exp_union (r1 r2 : expansion) : expansion :=
  Expansion (exp_links r1 ∪ exp_links r2) (exp_nodes r1 ∪ exp_nodes r2)
            (exp_calls r1 ++ exp_calls r2).

(** Lines 83-88: the link points away from the source when the cites
    budget is active, towards it otherwise. *)
Definition oriented_link (cites_depth : Z) (source target : celex) : link :=
  if bool_decide (0 < cites_depth) then source ⇝ target else target ⇝ source.

(** Line 90 as Python parses it: [and] binds tighter than [or], so the
    visited test only guards the cited budget. *)
Definition recurse_guard (new_cites_depth new_cited_depth : Z)
    (target : celex) (dont_repeat : gset celex) : bool :=
  py_truthy new_cites_depth ||
  (py_truthy new_cited_depth && bool_decide (target ∉ dont_repeat)).

(** Python's default budgets of a top-level call measure the recursion:
    every recursive call strictly decreases it. *)
Definition depth_measure (cites_depth cited_depth : Z) : nat :=
  (Z.to_nat cites_depth + Z.to_nat cited_depth)%nat.

Section WithLookup.
Context (lookup : celex → Z → Z → gset celex).

(** One iteration of the loop of lines 81-93.  The recursive call of
    line 91 does not pass [dont_repeat]: it gets the default [set()]. *)
Definition visit_target (rec : celex → Z → Z → gset celex → expansion)
    (source : celex) (cites_depth new_cites_depth new_cited_depth : Z)
    (dont_repeat : gset celex) (acc : expansion) (target : celex) : expansion :=
  let nodes := exp_nodes acc ∪ {[target]} in
  let links := exp_links acc ∪ {[oriented_link cites_depth source target]} in
  let acc' := Expansion links nodes (exp_calls acc) in
  if recurse_guard new_cites_depth new_cited_depth target dont_repeat
  then exp_union acc' (rec target new_cites_depth new_cited_depth ∅)
  else acc'.

(** Lines 65-95, with the recursive calls through [rec]. *)
Definition structure_body (rec : celex → Z → Z → gset celex → expansion)
    (source : celex) (cites_depth cited_depth : Z)
    (dont_repeat : gset celex) : expansion :=
  if bool_decide (0 < cites_depth) && bool_decide (0 < cited_depth) then
    exp_union (rec source cites_depth 0 dont_repeat)
              (rec source 0 cited_depth dont_repeat)
  else
    let new_cites_depth := Z.max (cites_depth - 1) 0 in
    let new_cited_depth := Z.max (cited_depth - 1) 0 in
    let dont_repeat := dont_repeat ∪ {[source]} in
    let hop_cites := Z.min cites_depth 1 in
    let hop_cited := Z.min cited_depth 1 in
    let targets := lookup source hop_cites hop_cited in
    foldl (visit_target rec source cites_depth new_cites_depth
                        new_cited_depth dont_repeat)
          (Expansion ∅ {[source]} [(source, hop_cites, hop_cited)])
          (elements targets).

Fixpoint structure_fuel (fuel : nat) (source : celex)
    (cites_depth cited_depth : Z) (dont_repeat : gset celex) : expansion :=
  match fuel with
  | O => Expansion ∅ {[source]} []
  | S fuel' => structure_body (structure_fuel fuel') source cites_depth
                              cited_depth dont_repeat
  end.

Definition get_citations_structure (source : celex)
    (cites_depth cited_depth : Z) (dont_repeat : gset celex) : expansion :=
  structure_fuel (S (depth_measure cites_depth cited_depth)) source
                 cites_depth cited_depth dont_repeat.
End WithLookup.

(** The shape of a [(links, nodes)] pair the function returns, with its
    request log: both ends of every link are nodes, and every document
    the lookup was asked about is a node. *)
Definition exp_closed (e : expansion) : Prop :=
  set_Forall (λ l : link, l.1 ∈ exp_nodes e ∧ l.2 ∈ exp_nodes e) (exp_links e) ∧
  Forall (λ call : celex * Z * Z, call.1.1 ∈ exp_nodes e) (exp_calls e).

(** A well-formed expansion of the seed [s]: a closed citation graph
    that holds the seed. *)
Definition exp_wf (s : celex) (e : expansion) : Prop :=
  s ∈ exp_nodes e ∧ exp_closed e.

#[export] Instance exp_closed_dec e : Decision (exp_closed e).
Proof. unfold exp_closed. apply _. Defined.
#[export] Instance exp_wf_dec s e : Decision (exp_wf s e).
Proof. unfold exp_wf. apply _. Defined.

(** [1 + b + ... + b^(n-1)]: the number of walks of fewer than [n]
    steps from a node in a graph where every node has [b] successors. *)
Fixpoint walk_bound (b n : nat) : nat :=
  match n with
  | O => O
  | S n' => S (b * walk_bound b n')
  end.

(** ** Termination: fuel, and the fuel-free unfolding equation *)

Lemma visit_loop_ext rec1 rec2 source c nc nd dr1 dr2 acc ts :
  (∀ t, recurse_guard nc nd t dr1 = recurse_guard nc nd t dr2) →
  (∀ t, recurse_guard nc nd t dr1 = true → rec1 t nc nd ∅ = rec2 t nc nd ∅) →
  foldl (visit_target rec1 source c nc nd dr1) acc ts =
  foldl (visit_target rec2 source c nc nd dr2) acc ts.
Proof.
  intros Hg Hext. revert acc.
  induction ts as [|t ts IH]; intros acc; simpl; [done|].
  rewrite <-IH. f_equal. unfold visit_target. rewrite <-Hg.
  destruct (recurse_guard nc nd t dr1) eqn:E; [by rewrite Hext|done].
Qed.

(** The guard of line 90 only lets the recursion through when a budget
    remains, so the recursive call has a smaller measure. *)
Lemma recurse_guard_measure c d t dr :
  ¬ (0 < c ∧ 0 < d) →
  recurse_guard (Z.max (c - 1) 0) (Z.max (d - 1) 0) t dr = true →
  (depth_measure (Z.max (c - 1) 0) (Z.max (d - 1) 0) < depth_measure c d)%nat.
Proof.
  unfold recurse_guard, depth_measure. intros Hns Hg.
  apply orb_true_iff in Hg. rewrite andb_true_iff, !py_truthy_spec in Hg. lia.
Qed.

Section Fuel.
Context (lookup : celex → Z → Z → gset celex).

Lemma structure_body_ext rec1 rec2 s c d dr :
  (∀ s' c' d' dr', (depth_measure c' d' < depth_measure c d)%nat →
     rec1 s' c' d' dr' = rec2 s' c' d' dr') →
  structure_body lookup rec1 s c d dr = structure_body lookup rec2 s c d dr.
Proof.
  intros Hext. unfold structure_body.
  destruct (bool_decide_reflect (0 < c)), (bool_decide_reflect (0 < d)); simpl;
    [rewrite !Hext; [done|unfold depth_measure; lia..]| | |];
    apply visit_loop_ext; [done| |done| |done|];
    intros t Ht; apply Hext, (recurse_guard_measure _ _ t (dr ∪ {[s]})); auto; lia.
Qed.

Lemma structure_fuel_enough f1 f2 s c d dr :
  (depth_measure c d < f1)%nat → (depth_measure c d < f2)%nat →
  structure_fuel lookup f1 s c d dr = structure_fuel lookup f2 s c d dr.
Proof.
  revert f2 s c d dr.
  induction f1 as [|f1 IH]; intros [|f2] s c d dr H1 H2; [lia..|].
  apply structure_body_ext. intros. apply IH; lia.
Qed.
End Fuel.

Section Structure.
Context (lookup : celex → Z → Z → gset celex).

(** C3: the recursion terminates: any fuel above the depth measure
    computes the same expansion as [get_citations_structure], so the
    fuel bound [S (depth_measure c d)] never runs out. *)
Theorem get_citations_structure_fuel fuel s c d dr :
  (depth_measure c d < fuel)%nat →
  structure_fuel lookup fuel s c d dr = get_citations_structure lookup s c d dr.
Proof. intros H. apply structure_fuel_enough; [done|lia]. Qed.

(** [get_citations_structure] is the fixpoint of the code's body: it
    satisfies the defining equation of lines 65-95 with the recursive
    calls made to itself, with no fuel left in sight. *)
Theorem get_citations_structure_unfold s c d dr :
  get_citations_structure lookup s c d dr = structure_body lookup (get_citations_structure lookup) s c d dr.
Proof.
  unfold get_citations_structure at 1. simpl.
  apply structure_body_ext. intros s' c' d' dr' Hlt.
  apply structure_fuel_enough; lia.
Qed.

End Structure.

(** ** The loop over the targets *)

Section Loop.
Context (rec : celex → Z → Z → gset celex → expansion)
        (source : celex) (c nc nd : Z) (dr : gset celex).
Local Abbreviation visit := (visit_target rec source c nc nd dr).
Local Abbreviation guard t := (recurse_guard nc nd t dr = true).

Lemma loop_nodes acc ts x :
  x ∈ exp_nodes (foldl visit acc ts) ↔
  x ∈ exp_nodes acc ∨
  ∃ t, t ∈ ts ∧ (x = t ∨ (guard t ∧ x ∈ exp_nodes (rec t nc nd ∅))).
Proof.
  revert acc. induction ts as [|t ts IH]; intros acc; simpl; [set_solver|].
  rewrite IH, exists_elem_of_cons. unfold visit_target.
  destruct (recurse_guard nc nd t dr); simpl;
    rewrite !elem_of_union, ?elem_of_singleton; intuition congruence.
Qed.

Lemma loop_links acc ts l :
  l ∈ exp_links (foldl visit acc ts) ↔
  l ∈ exp_links acc ∨
  ∃ t, t ∈ ts ∧ (l = oriented_link c source t ∨
                 (guard t ∧ l ∈ exp_links (rec t nc nd ∅))).
Proof.
  revert acc. induction ts as [|t ts IH]; intros acc; simpl; [set_solver|].
  rewrite IH, exists_elem_of_cons. unfold visit_target.
  destruct (recurse_guard nc nd t dr); simpl;
    rewrite !elem_of_union, ?elem_of_singleton; intuition congruence.
Qed.

Lemma loop_calls acc ts :
  exp_calls (foldl visit acc ts) =
  exp_calls acc ++
  mjoin (map (λ t, if recurse_guard nc nd t dr
                   then exp_calls (rec t nc nd ∅) else []) ts).
Proof.
  revert acc. induction ts as [|t ts IH]; intros acc; simpl;
    [by rewrite app_nil_r|].
  rewrite IH. unfold visit_target.
  destruct (recurse_guard nc nd t dr); simpl; by rewrite ?app_assoc.
Qed.
End Loop.

(** ** One step of the expansion *)

Section Step.
Context (lookup : celex → Z → Z → gset celex).

(** Line 66-69: both budgets positive, the two directions are expanded
    separately, with the same [dont_repeat], and merged. *)
Lemma get_citations_structure_split s c d dr :
  0 < c → 0 < d →
  get_citations_structure lookup s c d dr = exp_union (get_citations_structure lookup s c 0 dr) (get_citations_structure lookup s 0 d dr).
Proof.
  intros Hc Hd. rewrite get_citations_structure_unfold. unfold structure_body.
  by rewrite !bool_decide_eq_true_2.
Qed.

(** Lines 72-95, one direction (or none) active, as three facts on the
    result: its nodes, its links and its lookup log. *)
Lemma get_citations_structure_step s c d dr hc hd nc nd :
  ¬ (0 < c ∧ 0 < d) →
  hc = Z.min c 1 → hd = Z.min d 1 →
  nc = Z.max (c - 1) 0 → nd = Z.max (d - 1) 0 →
  (∀ x, x ∈ exp_nodes (get_citations_structure lookup s c d dr) ↔
     x = s ∨ ∃ t, t ∈ lookup s hc hd ∧
       (x = t ∨ (recurse_guard nc nd t (dr ∪ {[s]}) = true ∧
                 x ∈ exp_nodes (get_citations_structure lookup t nc nd ∅)))) ∧
  (∀ l, l ∈ exp_links (get_citations_structure lookup s c d dr) ↔
     ∃ t, t ∈ lookup s hc hd ∧
       (l = oriented_link c s t ∨
        (recurse_guard nc nd t (dr ∪ {[s]}) = true ∧
         l ∈ exp_links (get_citations_structure lookup t nc nd ∅)))) ∧
  exp_calls (get_citations_structure lookup s c d dr) =
    (s, hc, hd) :: mjoin (map (λ t, if recurse_guard nc nd t (dr ∪ {[s]})
                                    then exp_calls (get_citations_structure lookup t nc nd ∅) else [])
                              (elements (lookup s hc hd))).
Proof.
  intros Hns -> -> -> ->. rewrite get_citations_structure_unfold.
  unfold structure_body.
  destruct (bool_decide_reflect (0 < c)), (bool_decide_reflect (0 < d));
    simpl; [lia| | |];
    (split_and!;
     [intros x; rewrite loop_nodes|intros lk; rewrite loop_links|
      by rewrite loop_calls]; setoid_rewrite elem_of_elements; set_solver).
Qed.
End Step.

(** Strong induction on the depth measure: the induction principle of
    the recursion of lines 65-95. *)
Lemma depth_measure_ind (P : Z → Z → Prop) :
  (∀ c d, (∀ c' d', (depth_measure c' d' < depth_measure c d)%nat → P c' d') →
          P c d) →
  ∀ c d, P c d.
Proof.
  intros Hstep c d. remember (depth_measure c d) as n eqn:Hn. revert c d Hn.
  induction n as [n IH] using lt_wf_ind. intros c d ->.
  apply Hstep. intros c' d' Hlt. by eapply IH.
Qed.

(** Case analysis on the first test of the code (line 66): in the split
    case the expansion is rewritten into its two halves, otherwise the
    step lemma describes its nodes, links and lookup log. *)
Ltac expansion_cases split step lookup s c d dr :=
  let Hc := fresh "Hc" in let Hd := fresh "Hd" in let Hns := fresh "Hns" in
  destruct (decide (0 < c ∧ 0 < d)) as [[Hc Hd]|Hns];
  [rewrite (split lookup s c d dr Hc Hd); simpl
  |destruct (step lookup s c d dr _ _ _ _ Hns
               eq_refl eq_refl eq_refl eq_refl) as (Hnodes & Hlinks & Hcalls)].

Ltac measure_lt guard_measure :=
  first [ eapply guard_measure; [done|eassumption]
        | unfold depth_measure; lia ].

(** ** Well-formedness: every operation preserves [exp_wf] *)

Lemma exp_union_closed r1 r2 :
  exp_closed r1 → exp_closed r2 → exp_closed (exp_union r1 r2).
Proof.
  intros [Hl1 Hc1] [Hl2 Hc2]. split; simpl.
  - intros l [Hl|Hl]%elem_of_union; [apply Hl1 in Hl|apply Hl2 in Hl]; set_solver.
  - apply Forall_app. split; (eapply Forall_impl; [eassumption|]); set_solver.
Qed.

(** The expansion a call starts from (line 78), and the one of a call
    out of fuel. *)
Lemma seed_expansion_wf s calls :
  Forall (λ call : celex * Z * Z, call.1.1 = s) calls →
  exp_wf s (Expansion ∅ {[s]} calls).
Proof.
  intros Hc. unfold exp_wf, exp_closed. simpl.
  split_and!; [set_solver|by intros ? ?%elem_of_empty|].
  eapply Forall_impl; [exact Hc|]. set_solver.
Qed.

Section Wf.
Context (lookup : celex → Z → Z → gset celex)
        (rec : celex → Z → Z → gset celex → expansion).
Hypothesis rec_wf : ∀ s c d dr, exp_wf s (rec s c d dr).

(** Lines 83-93: the target becomes a node, the new link joins two
    nodes, and the recursive result is well formed. *)
Lemma visit_target_wf source c nc nd dr acc t :
  exp_wf source acc → exp_wf source (visit_target rec source c nc nd dr acc t).
Proof.
  unfold exp_wf, exp_closed. intros [Hs [Hl Hc]]. unfold visit_target.
  assert (Hacc : exp_wf source (Expansion (exp_links acc ∪ {[oriented_link c source t]})
                                          (exp_nodes acc ∪ {[t]}) (exp_calls acc))).
  { unfold exp_wf, exp_closed. split_and!; simpl; [set_solver| |eapply Forall_impl; [exact Hc|]; set_solver].
    intros l [Hin|Heq%elem_of_singleton]%elem_of_union; [apply Hl in Hin; set_solver|].
    subst l. unfold oriented_link. case_bool_decide; simpl; set_solver. }
  destruct (recurse_guard _ _ _ _); [|done].
  destruct Hacc as [Hs' Hacc]. split; [simpl; set_solver|].
  apply exp_union_closed; [done|apply rec_wf].
Qed.

Lemma structure_body_wf s c d dr : exp_wf s (structure_body lookup rec s c d dr).
Proof.
  unfold structure_body. destruct (_ && _).
  - destruct (rec_wf s c 0 dr) as [Hs H1], (rec_wf s 0 d dr) as [_ H2].
    split; [simpl; set_solver|by apply exp_union_closed].
  - apply foldl_invariant; [by apply seed_expansion_wf; constructor|].
    intros acc t _. apply visit_target_wf.
Qed.
End Wf.

Lemma structure_fuel_wf lookup fuel s c d dr :
  exp_wf s (structure_fuel lookup fuel s c d dr).
Proof.
  revert s c d dr. induction fuel as [|fuel IH]; intros s c d dr; simpl;
    [by apply seed_expansion_wf|by apply structure_body_wf].
Qed.

(** C4 (type): every [(links, nodes)] pair the function returns is a
    well-formed citation graph around its seed: the seed is a node (even
    when the lookup finds nothing), both ends of every link are nodes,
    and every document the function looked up is a node. *)
Theorem get_citations_structure_wf lookup s c d dr :
  exp_wf s (get_citations_structure lookup s c d dr).
Proof. apply structure_fuel_wf. Qed.

(** ** Invariants of the expansion *)

Section Invariants.
Context (lookup : celex → Z → Z → gset celex).

(** Every node other than the seed is an answer of the lookup, so it has
    every property all answers have. *)
Lemma get_citations_structure_answers (P : celex → Prop) s c d dr x :
  (∀ y a b t, t ∈ lookup y a b → P t) →
  x ∈ exp_nodes (get_citations_structure lookup s c d dr) → x = s ∨ P x.
Proof.
  intros HP. revert s dr x. induction c, d as [c d IH] using depth_measure_ind.
  intros s dr x.
  expansion_cases get_citations_structure_split get_citations_structure_step
    lookup s c d dr.
  - rewrite elem_of_union.
    intros [Hx|Hx]; apply IH in Hx;
      [|measure_lt recurse_guard_measure| |measure_lt recurse_guard_measure];
      naive_solver.
  - rewrite Hnodes. intros [->|(t & Ht & [->|[Hg Hin]])]; [by left|eauto|].
    apply IH in Hin as [->|]; [..|measure_lt recurse_guard_measure]; eauto.
Qed.

(** Every lookup the expansion issues is for the seed or for an answer
    of an earlier lookup, and with non-negative budgets it asks for one
    hop in at most one direction. *)
Lemma get_citations_structure_calls (P : celex → Prop) s c d dr y a b :
  (∀ y a b t, t ∈ lookup y a b → P t) →
  0 ≤ c → 0 ≤ d → (y, a, b) ∈ exp_calls (get_citations_structure lookup s c d dr) →
  (0 ≤ a ≤ 1 ∧ 0 ≤ b ≤ 1 ∧ a + b ≤ 1) ∧ (y = s ∨ P y).
Proof.
  intros HP. revert s dr. induction c, d as [c d IH] using depth_measure_ind.
  intros s dr Hc Hd.
  expansion_cases get_citations_structure_split get_citations_structure_step
    lookup s c d dr.
  - rewrite elem_of_app.
    intros [H|H]; (eapply IH in H; [exact H|..]);
      first [measure_lt recurse_guard_measure|lia].
  - rewrite Hcalls, elem_of_cons, elem_of_join_map.
    intros [Heq|(t & Ht%elem_of_elements & Hin)]; [simplify_eq; split; [lia|by left]|].
    destruct (recurse_guard _ _ t _) eqn:Hg; [|set_solver].
    eapply IH in Hin as [Hb Hy]; [|measure_lt recurse_guard_measure|lia..].
    split; [done|right]. destruct Hy as [->|]; eauto.
Qed.

(** The guard of line 90 lets the recursion through only while a budget
    is left. *)
Lemma recurse_guard_budget nc nd t dr :
  recurse_guard nc nd t dr = true → nc ≠ 0 ∨ nd ≠ 0.
Proof. unfold recurse_guard. rewrite orb_true_iff, andb_true_iff, !py_truthy_spec. tauto. Qed.

Lemma walk_bound_pos B n : (0 < n → 1 ≤ walk_bound B n)%nat.
Proof. destruct n; simpl; lia. Qed.

(** One step of the count: the call's own lookup, and [B] recursive
    calls with the decremented budgets. *)
Lemma walk_bound_step B c d :
  ¬ (0 < c ∧ 0 < d) →
  (1 + B * (walk_bound B (Z.to_nat (Z.max (c - 1) 0)) +
            walk_bound B (Z.to_nat (Z.max (d - 1) 0))) ≤
   Nat.max 1 (walk_bound B (Z.to_nat c) + walk_bound B (Z.to_nat d)))%nat.
Proof.
  intros Hns. rewrite !to_nat_max_pred.
  destruct (Z.to_nat c) as [|c'] eqn:Hc, (Z.to_nat d) as [|d'] eqn:Hd; simpl; lia.
Qed.

(** C5 (bounds): when every lookup answers at most [B] documents, a
    call issues at most [1 + B + ... + B^(c-1)] lookups for the cites
    budget [c] plus as many for the cited budget [d] (at least the one
    lookup of a call with no budget): the recursion re-expands documents
    (C6), so the number of SPARQL requests grows with the number of
    walks, not of documents. *)
Theorem get_citations_structure_calls_bound B s c d dr :
  (∀ y a b, size (lookup y a b) ≤ B)%nat →
  (length (exp_calls (get_citations_structure lookup s c d dr)) ≤
   Nat.max 1 (walk_bound B (Z.to_nat c) + walk_bound B (Z.to_nat d)))%nat.
Proof.
  intros HB. revert s dr. induction c, d as [c d IH] using depth_measure_ind.
  intros s dr.
  expansion_cases get_citations_structure_split get_citations_structure_step
    lookup s c d dr.
  - rewrite length_app.
    pose proof (IH c 0 ltac:(unfold depth_measure; lia) s dr) as H1.
    pose proof (IH 0 d ltac:(unfold depth_measure; lia) s dr) as H2.
    pose proof (walk_bound_pos B (Z.to_nat c)). pose proof (walk_bound_pos B (Z.to_nat d)).
    simpl in H1, H2. lia.
  - rewrite Hcalls. simpl length.
    etrans; [|by apply walk_bound_step]. apply le_n_S.
    etrans; [apply length_join_map_le|].
    2: { apply Nat.mul_le_mono_r, HB. }
    intros t _. destruct (recurse_guard _ _ t _) eqn:Hg; [|simpl; lia].
    etrans; [apply IH; measure_lt recurse_guard_measure|].
    apply recurse_guard_budget in Hg.
    pose proof (walk_bound_pos B (Z.to_nat (Z.max (c - 1) 0))).
    pose proof (walk_bound_pos B (Z.to_nat (Z.max (d - 1) 0))). lia.
Qed.

End Invariants.

(** ** Refinement: the expansion computes bounded reachability

    The spec's reading of the expander (design notes) is two tagged
    traversals, one per [direction]; [expand_dir] is the code's call with
    the budget of one direction only, [hop_of] the one-hop lookup that
    direction asks for, [dir_link] the orientation of its links. *)

Definition hop_of (lookup : celex → Z → Z → gset celex) (dir : direction)
    (y : celex) : gset celex :=
  match dir with Cites => lookup y 1 0 | Cited => lookup y 0 1 end.

Definition dir_link (dir : direction) (a b : celex) : link :=
  match dir with Cites => a ⇝ b | Cited => b ⇝ a end.

Definition expand_dir (lookup : celex → Z → Z → gset celex) (dir : direction)
    (n : Z) (s : celex) (dr : gset celex) : expansion :=
  match dir with
  | Cites => get_citations_structure lookup s n 0 dr
  | Cited => get_citations_structure lookup s 0 n dr
  end.

Lemma recurse_guard_cites n t dr :
  recurse_guard (Z.of_nat n) 0 t dr = true ↔ n ≠ 0%nat.
Proof.
  unfold recurse_guard. rewrite orb_true_iff, andb_true_iff, !py_truthy_spec.
  split; [intros [?|[? _]]; lia|intros; left; lia].
Qed.

Lemma recurse_guard_cited n t dr :
  recurse_guard 0 (Z.of_nat n) t dr = true ↔ n ≠ 0%nat ∧ t ∉ dr.
Proof.
  unfold recurse_guard.
  rewrite orb_true_iff, andb_true_iff, !py_truthy_spec, bool_decide_eq_true.
  split; [intros [?|[? ?]]; [lia|split; [lia|done]]|intros [? ?]; right; split; [lia|done]].
Qed.

Section Refinement.
Context (lookup : celex → Z → Z → gset celex).
Local Abbreviation P dir dr s t := (dir = Cites ∨ t ∉ dr ∪ {[s]}).

Lemma expand_dir_step dir m s dr :
  (∀ x, x ∈ exp_nodes (expand_dir lookup dir (Z.of_nat (S m)) s dr) ↔
    x = s ∨ ∃ t, t ∈ hop_of lookup dir s ∧
      (x = t ∨ (m ≠ 0%nat ∧ P dir dr s t ∧
                x ∈ exp_nodes (expand_dir lookup dir (Z.of_nat m) t ∅)))) ∧
  (∀ l, l ∈ exp_links (expand_dir lookup dir (Z.of_nat (S m)) s dr) ↔
    ∃ t, t ∈ hop_of lookup dir s ∧
      (l = dir_link dir s t ∨ (m ≠ 0%nat ∧ P dir dr s t ∧
                l ∈ exp_links (expand_dir lookup dir (Z.of_nat m) t ∅)))).
Proof.
  destruct dir; simpl.
  - destruct (get_citations_structure_step lookup s (Z.of_nat (S m)) 0 dr
                1 0 (Z.of_nat m) 0) as (Hn & Hl & _); [lia..|].
    unfold oriented_link in Hl. rewrite bool_decide_eq_true_2 in Hl by lia.
    setoid_rewrite recurse_guard_cites in Hn.
    setoid_rewrite recurse_guard_cites in Hl. naive_solver.
  - destruct (get_citations_structure_step lookup s 0 (Z.of_nat (S m)) dr
                0 1 0 (Z.of_nat m)) as (Hn & Hl & _); [lia..|].
    unfold oriented_link in Hl. rewrite bool_decide_eq_false_2 in Hl by lia.
    setoid_rewrite recurse_guard_cited in Hn.
    setoid_rewrite recurse_guard_cited in Hl. naive_solver.
Qed.

Lemma expand_dir_guard dir (dr : gset celex) s :
  (dir = Cites ∨ dr = ∅) → ∀ y, y ≠ s → P dir dr s y.
Proof. intros [-> | ->] y Hy; [by left|right; set_solver]. Qed.

Lemma expand_dir_nodes dir m s dr x :
  (dir = Cites ∨ dr = ∅) →
  x ∈ exp_nodes (expand_dir lookup dir (Z.of_nat (S m)) s dr) ↔
  reach_within (hop_of lookup dir) (S m) s x.
Proof.
  revert s dr x. induction m as [|m IH]; intros s dr x Hdr;
    rewrite (proj1 (expand_dir_step dir _ s dr)),
      (reach_within_S_guarded _ (λ t, P dir dr s t)) by
      (by apply expand_dir_guard); [naive_solver|].
  assert (IH' : ∀ t y, y ∈ exp_nodes (expand_dir lookup dir (Z.of_nat (S m)) t ∅)
                 ↔ reach_within (hop_of lookup dir) (S m) t y)
    by (intros; apply IH; by right).
  setoid_rewrite IH'. naive_solver.
Qed.

Lemma expand_dir_links dir m s dr l :
  (dir = Cites ∨ dr = ∅) →
  l ∈ exp_links (expand_dir lookup dir (Z.of_nat (S m)) s dr) ↔
  ∃ a b, l = dir_link dir a b ∧ edge_within (hop_of lookup dir) (S m) s a b.
Proof.
  revert s dr l. induction m as [|m IH]; intros s dr l Hdr;
    rewrite (proj2 (expand_dir_step dir _ s dr));
    setoid_rewrite (edge_within_S_guarded _ (λ t, P dir dr s t) _ s);
    try (by apply expand_dir_guard); [naive_solver|].
  assert (IH' : ∀ t k, k ∈ exp_links (expand_dir lookup dir (Z.of_nat (S m)) t ∅)
                 ↔ ∃ a b, k = dir_link dir a b ∧
                          edge_within (hop_of lookup dir) (S m) t a b)
    by (intros; apply IH; by right).
  setoid_rewrite IH'. naive_solver.
Qed.
End Refinement.

Section RefinementZ.
Context (lookup : celex → Z → Z → gset celex).

Lemma expand_dir_Z dir n s dr :
  0 < n → (dir = Cites ∨ dr = ∅) →
  (∀ x, x ∈ exp_nodes (expand_dir lookup dir n s dr) ↔
        reach_within (hop_of lookup dir) (Z.to_nat n) s x) ∧
  (∀ l, l ∈ exp_links (expand_dir lookup dir n s dr) ↔
        ∃ a b, l = dir_link dir a b ∧
               edge_within (hop_of lookup dir) (Z.to_nat n) s a b).
Proof.
  intros Hn Hdr. destruct (Z.to_nat n) as [|m] eqn:E; [lia|].
  replace n with (Z.of_nat (S m)) by lia.
  split; intros; [apply expand_dir_nodes|apply expand_dir_links]; done.
Qed.

(** The cites-only and cited-only expansions of the seed with an empty
    [dont_repeat], as the code's own calls make them. *)
Ltac direction_facts dir_Z s c d Hn1 Hl1 Hn2 Hl2 :=
  (destruct (decide (0 < c)) as [?|?];
   [destruct (dir_Z Cites c s ∅) as [Hn1 Hl1]; [done|by left|]|]);
  (destruct (decide (0 < d)) as [?|?];
   [destruct (dir_Z Cited d s ∅) as [Hn2 Hl2]; [done|by right|]|]);
  cbn [expand_dir hop_of dir_link] in *.

(** The nodes and the links of the expansion, by direction. *)
Lemma structure_nodes_reach s c d x :
  0 ≤ c → 0 ≤ d → (0 < c ∨ 0 < d) →
  x ∈ exp_nodes (get_citations_structure lookup s c d ∅) ↔
  reach_within (λ y, lookup y 1 0) (Z.to_nat c) s x ∨
  reach_within (λ y, lookup y 0 1) (Z.to_nat d) s x.
Proof.
  intros Hc Hd Hcd. direction_facts expand_dir_Z s c d Hn1 Hl1 Hn2 Hl2.
  - rewrite get_citations_structure_split by done; simpl.
    by rewrite elem_of_union, Hn1, Hn2.
  - assert (d = 0) as -> by lia. rewrite Hn1, reach_within_0.
    naive_solver eauto with cite.
  - assert (c = 0) as -> by lia. rewrite Hn2, reach_within_0.
    naive_solver eauto with cite.
  - lia.
Qed.

Lemma structure_links_reach s c d l :
  0 ≤ c → 0 ≤ d → (0 < c ∨ 0 < d) →
  l ∈ exp_links (get_citations_structure lookup s c d ∅) ↔
  (∃ a b, l = a ⇝ b ∧ edge_within (λ y, lookup y 1 0) (Z.to_nat c) s a b) ∨
  (∃ a b, l = b ⇝ a ∧ edge_within (λ y, lookup y 0 1) (Z.to_nat d) s a b).
Proof.
  intros Hc Hd Hcd. direction_facts expand_dir_Z s c d Hn1 Hl1 Hn2 Hl2.
  - rewrite get_citations_structure_split by done; simpl.
    by rewrite elem_of_union, Hl1, Hl2.
  - assert (d = 0) as -> by lia. rewrite Hl1.
    split; [by left|intros [H|(a & b & _ & H)]; [done|by apply edge_within_0 in H]].
  - assert (c = 0) as -> by lia. rewrite Hl2.
    split; [by right|intros [(a & b & _ & H)|H]; [by apply edge_within_0 in H|done]].
  - lia.
Qed.

(** C1 (refinement): for non-negative budgets, not both zero, the
    nodes of [get_citations_structure s c d ∅] are exactly the
    documents within [c] citing hops of the seed or within [d] cited
    hops of it, where a hop is one [get_citations] answer.  The missing
    visited set costs time, never precision. *)
Theorem get_citations_structure_nodes_reach s c d x :
  0 ≤ c → 0 ≤ d → (0 < c ∨ 0 < d) →
  x ∈ exp_nodes (get_citations_structure lookup s c d ∅) ↔
  reach_within (λ y, lookup y 1 0) (Z.to_nat c) s x ∨
  reach_within (λ y, lookup y 0 1) (Z.to_nat d) s x.
Proof. apply structure_nodes_reach. Qed.

(** C2 (refinement): the links of the expansion are the citing hops
    taken from documents at most [c - 1] citing hops away, oriented
    [from -> to], and the cited hops taken from documents at most
    [d - 1] cited hops away, oriented [citing -> cited]. *)
Theorem get_citations_structure_links_reach s c d l :
  0 ≤ c → 0 ≤ d → (0 < c ∨ 0 < d) →
  l ∈ exp_links (get_citations_structure lookup s c d ∅) ↔
  (∃ a b, l = a ⇝ b ∧ edge_within (λ y, lookup y 1 0) (Z.to_nat c) s a b) ∨
  (∃ a b, l = b ⇝ a ∧ edge_within (λ y, lookup y 0 1) (Z.to_nat d) s a b).
Proof. apply structure_links_reach. Qed.
End RefinementZ.

(** ** Behaviour at the edges of the contract *)

Section Behaviour.
Context (lookup : celex → Z → Z → gset celex).

(** C8 (spec divergence): with both budgets zero the code does not
    short-circuit: it queries the lookup once with hop bounds [(0, 0)]
    and adds every answer as a node, linked towards the seed (the
    [else] branch of line 87, since [cites_depth > 0] fails). *)
Theorem get_citations_structure_zero s dr :
  exp_calls (get_citations_structure lookup s 0 0 dr) = [(s, 0, 0)] ∧
  (∀ x, x ∈ exp_nodes (get_citations_structure lookup s 0 0 dr) ↔ x = s ∨ x ∈ lookup s 0 0) ∧
  (∀ l, l ∈ exp_links (get_citations_structure lookup s 0 0 dr) ↔ ∃ t, t ∈ lookup s 0 0 ∧ l = t ⇝ s).
Proof.
  destruct (get_citations_structure_step lookup s 0 0 dr 0 0 0 0)
    as (Hn & Hl & Hc); [lia|done..|].
  assert (Hg : ∀ t dr', recurse_guard 0 0 t dr' = false) by done.
  setoid_rewrite Hg in Hn. setoid_rewrite Hg in Hl. setoid_rewrite Hg in Hc.
  split_and!.
  - rewrite Hc. simpl. by rewrite join_map_nil.
  - intros x. rewrite Hn. naive_solver.
  - intros l. rewrite Hl. unfold oriented_link. naive_solver.
Qed.

(** C7 (spec divergence): in the cites direction the visited set is
    dead code.  Line 90 parses as [new_cites_depth or (new_cited_depth
    and target not in dont_repeat)], so with no cited budget the
    membership test is never evaluated, whatever [dont_repeat] holds. *)
Theorem get_citations_structure_cites_visited s c dr :
  get_citations_structure lookup s c 0 dr = get_citations_structure lookup s c 0 ∅.
Proof.
  rewrite (get_citations_structure_unfold lookup s c 0 dr),
    (get_citations_structure_unfold lookup s c 0 ∅).
  unfold structure_body. rewrite (bool_decide_eq_false_2 (0 < 0)), andb_false_r
    by lia.
  apply visit_loop_ext; [|done].
  intros t. unfold recurse_guard. simpl. done.
Qed.

(** C9 (bounds): with non-negative budgets every lookup the expansion
    issues asks for a single hop in at most one direction: both hop
    bounds are 0 or 1 and their sum is at most 1 (spec step 4). *)
Theorem get_citations_structure_hops s c d dr y a b :
  0 ≤ c → 0 ≤ d → (y, a, b) ∈ exp_calls (get_citations_structure lookup s c d dr) →
  0 ≤ a ≤ 1 ∧ 0 ≤ b ≤ 1 ∧ a + b ≤ 1.
Proof.
  intros Hc Hd Hin.
  by apply (get_citations_structure_calls lookup (λ _, True) s c d dr y a b).
Qed.

(** C13 (liveness): the citing-direction traversal looks up every
    document it can reach: a document [m] citing hops from the seed, with
    [m] below the budget [c], is the subject of a lookup [(y, 1, 0)].
    Together with C6, every reachable document is expanded at least
    once, and possibly more. *)
Theorem get_citations_structure_visits s c dr m y :
  reach_within (λ y, lookup y 1 0) m s y → (m < Z.to_nat c)%nat →
  (y, 1, 0) ∈ exp_calls (get_citations_structure lookup s c 0 dr).
Proof.
  intros Hr. revert c dr.
  induction Hr as [n s|n s z y Hz _ IH]; intros c dr Hm;
    (destruct (get_citations_structure_step lookup s c 0 dr 1 0 (c - 1) 0)
       as (_ & _ & Hcalls); [lia..|]); rewrite Hcalls; [by left|right].
  apply elem_of_join_map. exists z. split; [by apply elem_of_elements|].
  assert (Hg : recurse_guard (c - 1) 0 z (dr ∪ {[s]}) = true)
    by (unfold recurse_guard; rewrite orb_true_iff, py_truthy_spec; left; lia).
  rewrite Hg. apply IH. lia.
Qed.
(** Lines 72-93 with the cites budget alone: the call's own lookup,
    then, for every target, the lookups of its recursive call with one
    hop less, whatever [dont_repeat] holds. *)
Lemma cites_calls s c dr :
  0 < c →
  ∃ M, exp_calls (get_citations_structure lookup s c 0 dr) = (s, 1, 0) :: M ∧
       ∀ t, t ∈ lookup s 1 0 → 1 < c →
            exp_calls (get_citations_structure lookup t (c - 1) 0 ∅) ⊆+ M.
Proof.
  intros Hc.
  destruct (get_citations_structure_step lookup s c 0 dr 1 0 (c - 1) 0)
    as (_ & _ & Hcalls); [lia..|].
  eexists; split; [exact Hcalls|]. intros t Ht Hc1.
  etrans; [|apply (join_map_submseteq _ _ t); by apply elem_of_elements].
  assert (Hg : recurse_guard (c - 1) 0 t (dr ∪ {[s]}) = true).
  { unfold recurse_guard. rewrite orb_true_iff, py_truthy_spec. left. lia. }
  cbv beta. by rewrite Hg.
Qed.

(** C6 (spec divergence): a document is expanded more than once in one
    top-level call.  The spec promises each node is expanded at most
    once; on every citation cycle [s -> y -> s] with citing depth at
    least 3 the code looks [s] up twice, whatever [dont_repeat] the
    caller passes: the recursive call of line 91 starts from an empty
    [dont_repeat], and the cites branch of line 90 never tests it. *)
Theorem get_citations_structure_reexpands s y c dr :
  y ∈ lookup s 1 0 → s ∈ lookup y 1 0 → 3 ≤ c →
  [(s, 1, 0); (s, 1, 0)] ⊆+ exp_calls (get_citations_structure lookup s c 0 dr).
Proof.
  intros Hy Hs Hc.
  destruct (cites_calls s c dr) as (M & -> & HM); [lia|].
  destruct (cites_calls y (c - 1) ∅) as (M' & Hy' & HM'); [lia|].
  destruct (cites_calls s (c - 1 - 1) ∅) as (M'' & Hs' & _); [lia|].
  apply submseteq_skip. etrans; [|apply (HM y Hy); lia]. rewrite Hy'.
  apply submseteq_cons. etrans; [|apply (HM' s Hs); lia]. rewrite Hs'.
  apply submseteq_skip, submseteq_nil_l.
Qed.

End Behaviour.

(** ** Concrete lookups *)

(** A citation cycle: ["3A"] cites ["3B"] and ["3B"] cites ["3A"]. *)
Definition cycle_lookup (y : celex) (_ _ : Z) : gset celex :=
  if String.eqb y "3A" then {["3B"]}
  else if String.eqb y "3B" then {["3A"]} else ∅.

(** The spec's end-to-end mock: the seed ["32021R0664"] cites
    ["32019R0945"] at one citing hop, every other query is empty. *)
Definition scenario_lookup (y : celex) (a b : Z) : gset celex :=
  if bool_decide (y = "32021R0664" ∧ a = 1 ∧ b = 0) then {["32019R0945"]}
  else ∅.

(** ** Witnesses: the theorems applied where their hypotheses hold *)

Lemma get_citations_structure_fuel_witness :
  (depth_measure 2 0 < 7)%nat ∧
  structure_fuel scenario_lookup 7 "32021R0664" 2 0 ∅ =
  get_citations_structure scenario_lookup "32021R0664" 2 0 ∅.
Proof.
  split; [vm_compute; lia|].
  apply get_citations_structure_fuel. vm_compute. lia.
Defined.

Lemma get_citations_structure_nodes_reach_witness :
  0 ≤ 2 ∧ 0 ≤ 1 ∧ (0 < 2 ∨ 0 < 1) ∧
  ("32019R0945" ∈ exp_nodes (get_citations_structure scenario_lookup "32021R0664" 2 1 ∅) ↔
   reach_within (λ y, scenario_lookup y 1 0) (Z.to_nat 2) "32021R0664" "32019R0945" ∨
   reach_within (λ y, scenario_lookup y 0 1) (Z.to_nat 1) "32021R0664" "32019R0945").
Proof. split_and!; [lia..|]. apply get_citations_structure_nodes_reach; lia. Defined.

Lemma get_citations_structure_links_reach_witness :
  0 ≤ 2 ∧ 0 ≤ 1 ∧ (0 < 2 ∨ 0 < 1) ∧
  ("32021R0664" ⇝ "32019R0945"
     ∈ exp_links (get_citations_structure scenario_lookup "32021R0664" 2 1 ∅) ↔
   (∃ a b, "32021R0664" ⇝ "32019R0945" = a ⇝ b ∧
           edge_within (λ y, scenario_lookup y 1 0) (Z.to_nat 2) "32021R0664" a b) ∨
   (∃ a b, "32021R0664" ⇝ "32019R0945" = b ⇝ a ∧
           edge_within (λ y, scenario_lookup y 0 1) (Z.to_nat 1) "32021R0664" a b)).
Proof. split_and!; [lia..|]. apply get_citations_structure_links_reach; lia. Defined.

Lemma get_citations_structure_hops_witness :
  0 ≤ 2 ∧ 0 ≤ 1 ∧
  ("32019R0945", 1, 0) ∈ exp_calls (get_citations_structure scenario_lookup "32021R0664" 2 1 ∅) ∧
  (0 ≤ 1 ≤ 1 ∧ 0 ≤ 0 ≤ 1 ∧ 1 + 0 ≤ 1).
Proof.
  assert (H : ("32019R0945", 1, 0)
     ∈ exp_calls (get_citations_structure scenario_lookup "32021R0664" 2 1 ∅))
    by (apply (bool_decide_unpack _); vm_compute; reflexivity).
  split; [lia|]. split; [lia|]. split; [exact H|].
  exact (get_citations_structure_hops scenario_lookup "32021R0664" 2 1 ∅
           "32019R0945" 1 0 ltac:(lia) ltac:(lia) H).
Defined.

Lemma get_citations_structure_visits_witness :
  reach_within (λ y, scenario_lookup y 1 0) 1 "32021R0664" "32019R0945" ∧
  (1 < Z.to_nat 2)%nat ∧
  ("32019R0945", 1, 0) ∈ exp_calls (get_citations_structure scenario_lookup "32021R0664" 2 0 ∅).
Proof.
  assert (Hr : reach_within (λ y, scenario_lookup y 1 0) 1 "32021R0664" "32019R0945").
  { econstructor; [|constructor]. apply (bool_decide_unpack _). vm_compute. reflexivity. }
  assert (Hm : (1 < Z.to_nat 2)%nat) by (simpl; lia).
  split_and!; [exact Hr|exact Hm|].
  exact (get_citations_structure_visits scenario_lookup "32021R0664" 2 ∅ 1 "32019R0945" Hr Hm).
Defined.

Lemma get_citations_structure_calls_bound_witness :
  (∀ y a b, size (scenario_lookup y a b) ≤ 1)%nat ∧
  (length (exp_calls (get_citations_structure scenario_lookup "32021R0664" 2 0 ∅)) ≤
   Nat.max 1 (walk_bound 1 (Z.to_nat 2) + walk_bound 1 (Z.to_nat 0)))%nat.
Proof.
  assert (HB : ∀ y a b, (size (scenario_lookup y a b) ≤ 1)%nat).
  { intros y a b. unfold scenario_lookup. case_bool_decide;
      [rewrite size_singleton|rewrite size_empty]; lia. }
  split; [exact HB|]. exact (get_citations_structure_calls_bound _ 1 _ 2 0 ∅ HB).
Defined.

(** The bound of C5 is reached, on a graph of three documents: when
    every document cites the same two, a cites budget of 3 makes
    [1 + 2 + 4] requests, where expanding each node once (the spec's
    VisitedSet) would make three. *)
Definition pair_lookup (_ : celex) (_ _ : Z) : gset celex := {["3A"; "3B"]}.

Example get_citations_structure_calls_bound_tight :
  length (exp_calls (get_citations_structure pair_lookup "3S" 3 0 ∅)) =
    walk_bound 2 (Z.to_nat 3) ∧
  size (exp_nodes (get_citations_structure pair_lookup "3S" 3 0 ∅)) = 3%nat.
Proof. split; vm_compute; reflexivity. Qed.

Lemma get_citations_structure_reexpands_witness :
  "3B" ∈ cycle_lookup "3A" 1 0 ∧ "3A" ∈ cycle_lookup "3B" 1 0 ∧ 3 ≤ 3 ∧
  [("3A", 1, 0); ("3A", 1, 0)] ⊆+ exp_calls (get_citations_structure cycle_lookup "3A" 3 0 ∅).
Proof.
  assert (Hy : "3B" ∈ cycle_lookup "3A" 1 0) by (apply (bool_decide_unpack _); vm_compute; reflexivity).
  assert (Hs : "3A" ∈ cycle_lookup "3B" 1 0) by (apply (bool_decide_unpack _); vm_compute; reflexivity).
  assert (Hc : 3 ≤ 3) by lia.
  split_and!; [exact Hy|exact Hs|exact Hc|].
  exact (get_citations_structure_reexpands cycle_lookup "3A" "3B" 3 ∅ Hy Hs Hc).
Defined.
