(* ===== verification/ExpanderOrder.v ===== *)
(** * The iteration order of the expander's loop (helper_functions.py 81)

    [for target in targets] iterates a Python set in the order of its
    hash table, which depends on the strings and on the interpreter's
    hash seed.  [Expander] fixes one order, [elements].  Here the order
    is a parameter [enum] of the loop: [structure_body_in],
    [structure_fuel_in] and [get_citations_structure_in] are the
    definitions of [Expander] with [targets] iterated as [enum targets]
    ([structure_body] is the instance [enum := elements]).  The theorem
    shows that every enumeration listing each element once gives the same
    links and nodes, and the same lookups up to their order: the spec's
    "order irrelevant".  The comparison is the equivalence [≡] on
    [expansion] (equal sets, permuted logs), with its [Proper]
    instances. *)

From S2P Require Import Prelude Reach Sparql Lookup Expander.

Local Open Scope Z_scope.

(** Two results of a traversal that agree up to the order of the
    lookups. *)
#[export] Instance expansion_equiv : Equiv expansion := λ r1 r2,
  exp_links r1 = exp_links r2 ∧ exp_nodes r1 = exp_nodes r2 ∧
  exp_calls r1 ≡ₚ exp_calls r2.

#[export] Instance expansion_equivalence : Equivalence (≡@{expansion}).
Proof.
  split.
  - intros r. by split_and!.
  - intros r1 r2 (H1 & H2 & H3). by split_and!.
  - intros r1 r2 r3 (H1 & H2 & H3) (H4 & H5 & H6).
    split_and!; [congruence|congruence|by etrans].
Qed.

#[export] Instance exp_union_proper : Proper ((≡) ==> (≡) ==> (≡)) exp_union.
Proof.
  intros r1 r1' (H1 & H2 & H3) r2 r2' (H4 & H5 & H6).
  split_and!; simpl; [congruence|congruence|by rewrite H3, H6].
Qed.

Section WithLookup.
Context (lookup : celex → Z → Z → gset celex) (enum : gset celex → list celex).

(** Lines 65-95, the loop of line 81 iterating [targets] as
    [enum targets]. *)
Definition structure_body_in (rec : celex → Z → Z → gset celex → expansion)
    (source : celex) (cites_depth cited_depth : Z)
    (dont_repeat : gset celex) : expansion :=
  if bool_decide (0 < cites_depth) && bool_decide (0 < cited_depth) then
    exp_union (rec source cites_depth 0 dont_repeat)
              (rec source 0 cited_depth dont_repeat)
  else
    let new_cites_depth := Z.max (cites_depth - 1) 0 in
    let new_cited_depth := Z.max (cited_depth - 1) 0 in
    let dont_repeat := dont_repeat ∪ {[source]} in
    let hop_cites := Z.min cites_depth 1 in
    let hop_cited := Z.min cited_depth 1 in
    let targets := lookup source hop_cites hop_cited in
    foldl (visit_target rec source cites_depth new_cites_depth
                        new_cited_depth dont_repeat)
          (Expansion ∅ {[source]} [(source, hop_cites, hop_cited)])
          (enum targets).

Fixpoint structure_fuel_in (fuel : nat) (source : celex)
    (cites_depth cited_depth : Z) (dont_repeat : gset celex) : expansion :=
  match fuel with
  | O => Expansion ∅ {[source]} []
  | S fuel' => structure_body_in (structure_fuel_in fuel') source cites_depth
                                 cited_depth dont_repeat
  end.

Definition get_citations_structure_in (source : celex)
    (cites_depth cited_depth : Z) (dont_repeat : gset celex) : expansion :=
  structure_fuel_in (S (depth_measure cites_depth cited_depth)) source
                    cites_depth cited_depth dont_repeat.
End WithLookup.

(** [Expander]'s body is the one iterating [elements]. *)
Lemma structure_body_in_elements lookup :
  structure_body_in lookup elements = structure_body lookup.
Proof. reflexivity. Qed.

Lemma join_map_pointwise {A B} (f g : A → list B) (l : list A) :
  (∀ x, f x ≡ₚ g x) → mjoin (map f l) ≡ₚ mjoin (map g l).
Proof. intros Hfg. induction l as [|x l IH]; simpl; [done|by rewrite Hfg, IH]. Qed.

Lemma join_map_perm {A B} (f : A → list B) (l1 l2 : list A) :
  l1 ≡ₚ l2 → mjoin (map f l1) ≡ₚ mjoin (map f l2).
Proof.
  induction 1 as [|x l1 l2 _ IH|x y l|l1 l2 l3 _ IH1 _ IH2]; simpl.
  - done.
  - by rewrite IH.
  - rewrite !(assoc_L (++)). apply Permutation_app_tail, Permutation_app_comm.
  - by rewrite IH1, IH2.
Qed.

(** The loop of lines 81-93 over two enumerations of the same targets,
    with equivalent recursive calls, gives equivalent results. *)
Lemma loop_equiv rec1 rec2 source c nc nd dr acc ts1 ts2 :
  (∀ t c d dr, rec1 t c d dr ≡ rec2 t c d dr) → ts1 ≡ₚ ts2 →
  foldl (visit_target rec1 source c nc nd dr) acc ts1 ≡
  foldl (visit_target rec2 source c nc nd dr) acc ts2.
Proof.
  intros Hrec Hts.
  assert (Hin : ∀ t, t ∈ ts1 ↔ t ∈ ts2) by (intros t; by rewrite Hts).
  split_and!.
  - apply set_eq. intros l. rewrite !loop_links.
    setoid_rewrite Hin. by setoid_rewrite (proj1 (Hrec _ _ _ _)).
  - apply set_eq. intros x. rewrite !loop_nodes.
    setoid_rewrite Hin. by setoid_rewrite (proj1 (proj2 (Hrec _ _ _ _))).
  - rewrite !loop_calls. apply Permutation_app_head.
    rewrite (join_map_perm _ _ _ Hts). apply join_map_pointwise.
    intros t. destruct (recurse_guard nc nd t dr); [apply Hrec|done].
Qed.

Lemma structure_fuel_in_equiv lookup enum fuel s c d dr :
  (∀ X, enum X ≡ₚ elements X) →
  structure_fuel_in lookup enum fuel s c d dr ≡ structure_fuel lookup fuel s c d dr.
Proof.
  intros Henum. revert s c d dr.
  induction fuel as [|fuel IH]; intros s c d dr; [done|].
  cbn [structure_fuel_in structure_fuel]. unfold structure_body_in, structure_body.
  destruct (bool_decide (0 < c) && bool_decide (0 < d)).
  - by rewrite !IH.
  - apply loop_equiv; [apply IH|apply Henum].
Qed.

(** C32 (equivalence): the result does not depend on the order in
    which the loop of line 81 iterates the set of targets: for every
    enumeration listing each target once, the links and the nodes are
    those of [get_citations_structure], and the lookups are the same,
    in another order. *)
Theorem get_citations_structure_order lookup enum s c d dr :
  (∀ X, enum X ≡ₚ elements X) →
  exp_links (get_citations_structure_in lookup enum s c d dr) =
    exp_links (get_citations_structure lookup s c d dr) ∧
  exp_nodes (get_citations_structure_in lookup enum s c d dr) =
    exp_nodes (get_citations_structure lookup s c d dr) ∧
  exp_calls (get_citations_structure_in lookup enum s c d dr) ≡ₚ
    exp_calls (get_citations_structure lookup s c d dr).
Proof. intros Henum. apply (structure_fuel_in_equiv lookup enum _ s c d dr Henum). Qed.

(** Iterating the targets in reverse order. *)
Lemma get_citations_structure_order_witness :
  (∀ X : gset celex, reverse (elements X) ≡ₚ elements X) ∧
  exp_links (get_citations_structure_in scenario_lookup (λ X, reverse (elements X))
               "32021R0664" 2 1 ∅) =
    exp_links (get_citations_structure scenario_lookup "32021R0664" 2 1 ∅) ∧
  exp_nodes (get_citations_structure_in scenario_lookup (λ X, reverse (elements X))
               "32021R0664" 2 1 ∅) =
    exp_nodes (get_citations_structure scenario_lookup "32021R0664" 2 1 ∅) ∧
  exp_calls (get_citations_structure_in scenario_lookup (λ X, reverse (elements X))
               "32021R0664" 2 1 ∅) ≡ₚ
    exp_calls (get_citations_structure scenario_lookup "32021R0664" 2 1 ∅).
Proof.
  assert (Henum : ∀ X : gset celex, reverse (elements X) ≡ₚ elements X)
    by (intros X; apply reverse_Permutation).
  split; [exact Henum|].
  exact (get_citations_structure_order scenario_lookup (λ X, reverse (elements X))
           "32021R0664" 2 1 ∅ Henum).
Defined.
