(* ===== verification/ExpanderExc.v ===== *)
(** * The expander over a lookup that raises (helper_functions.py 65-95)

    [get_citations] can raise: [SPARQLWrapper] raises [QueryBadFormed]
    when the endpoint rejects the query and [URLError] when the request
    fails, and [get_citations_structure] catches nothing.  This file
    models the function as written over such a lookup, in the [outcome]
    monad: [visit_target_exc], [structure_body_exc], [structure_fuel_exc]
    and [get_citations_structure_exc] are the definitions of [Expander]
    with every [get_citations] call and every recursive call bound
    with [≫=], the loop an [outcome_fold].

    The theorems relate the two models: the raising expander is the
    plain expander run on the answers, aborted at the first lookup of its
    log that raises ([abort_at]).  So a traversal either completes with
    exactly the plain model's result, or raises the exception of its
    first failing lookup, with no partial result: the spec's
    "abort the whole traversal" policy. *)

From S2P Require Import Prelude Reach Sparql Lookup Expander.

Local Open Scope Z_scope.

Section WithLookup.
Context (lookup : celex → Z → Z → outcome (gset celex)).

(** One iteration of the loop of lines 81-93; the recursive call of
    line 91 may raise. *)
Definition visit_target_exc (rec : celex → Z → Z → gset celex → outcome expansion)
    (source : celex) (cites_depth new_cites_depth new_cited_depth : Z)
    (dont_repeat : gset celex) (acc : expansion) (target : celex)
    : outcome expansion :=
  let nodes := exp_nodes acc ∪ {[target]} in
  let links := exp_links acc ∪ {[oriented_link cites_depth source target]} in
  let acc' := Expansion links nodes (exp_calls acc) in
  if recurse_guard new_cites_depth new_cited_depth target dont_repeat
  then r ← rec target new_cites_depth new_cited_depth ∅; Ok (exp_union acc' r)
  else Ok acc'.

(** Lines 65-95: line 67 runs before line 68, and the lookup of line 79
    before the loop. *)
Definition structure_body_exc (rec : celex → Z → Z → gset celex → outcome expansion)
    (source : celex) (cites_depth cited_depth : Z)
    (dont_repeat : gset celex) : outcome expansion :=
  if bool_decide (0 < cites_depth) && bool_decide (0 < cited_depth) then
    r1 ← rec source cites_depth 0 dont_repeat;
    r2 ← rec source 0 cited_depth dont_repeat;
    Ok (exp_union r1 r2)
  else
    let new_cites_depth := Z.max (cites_depth - 1) 0 in
    let new_cited_depth := Z.max (cited_depth - 1) 0 in
    let dont_repeat := dont_repeat ∪ {[source]} in
    let hop_cites := Z.min cites_depth 1 in
    let hop_cited := Z.min cited_depth 1 in
    targets ← lookup source hop_cites hop_cited;
    outcome_fold (visit_target_exc rec source cites_depth new_cites_depth
                                   new_cited_depth dont_repeat)
                 (Expansion ∅ {[source]} [(source, hop_cites, hop_cited)])
                 (elements targets).

Fixpoint structure_fuel_exc (fuel : nat) (source : celex)
    (cites_depth cited_depth : Z) (dont_repeat : gset celex) : outcome expansion :=
  match fuel with
  | O => Ok (Expansion ∅ {[source]} [])
  | S fuel' => structure_body_exc (structure_fuel_exc fuel') source cites_depth
                                  cited_depth dont_repeat
  end.

Definition get_citations_structure_exc (source : celex)
    (cites_depth cited_depth : Z) (dont_repeat : gset celex) : outcome expansion :=
  structure_fuel_exc (S (depth_measure cites_depth cited_depth)) source
                     cites_depth cited_depth dont_repeat.
End WithLookup.

(** The exception of the first lookup of a log that raises. *)
Fixpoint first_failure (lookup : celex → Z → Z → outcome (gset celex))
    (calls : list (celex * Z * Z)) : option py_exc :=
  match calls with
  | [] => None
  | (y, a, b) :: calls' =>
      match lookup y a b with
      | Raise e => Some e
      | Ok _ => first_failure lookup calls'
      end
  end.

(** A plain expansion, unless a lookup of its log raised. *)
Definition abort_at (lookup : celex → Z → Z → outcome (gset celex))
    (r : expansion) : outcome expansion :=
  match first_failure lookup (exp_calls r) with
  | Some e => Raise e
  | None => Ok r
  end.

(** A value computed after the lookups of [calls], unless one raised. *)
Definition abort_calls {A} (lookup : celex → Z → Z → outcome (gset celex))
    (calls : list (celex * Z * Z)) (v : A) : outcome A :=
  match first_failure lookup calls with
  | Some e => Raise e
  | None => Ok v
  end.

(** The lookup the plain model runs on: the answers, where there are. *)
Definition answers_of (lookup : celex → Z → Z → outcome (gset celex))
    (y : celex) (a b : Z) : gset celex :=
  ok_answers (lookup y a b).

(** ** The raising expander is the plain one, aborted *)

Lemma first_failure_app lookup l1 l2 :
  first_failure lookup (l1 ++ l2) =
  match first_failure lookup l1 with
  | Some e => Some e
  | None => first_failure lookup l2
  end.
Proof.
  induction l1 as [|[[y a] b] l1 IH]; simpl; [done|].
  by destruct (lookup y a b).
Qed.

Lemma first_failure_None lookup l :
  (∀ y a b, (y, a, b) ∈ l → ∃ T, lookup y a b = Ok T) →
  first_failure lookup l = None.
Proof.
  induction l as [|[[y a] b] l IH]; intros Hl; simpl; [done|].
  destruct (Hl y a b) as [T ->]; [by left|]. apply IH.
  intros y' a' b' Hin. apply Hl. by right.
Qed.

Lemma first_failure_Some lookup l e :
  first_failure lookup l = Some e →
  ∃ y a b, (y, a, b) ∈ l ∧ lookup y a b = Raise e.
Proof.
  induction l as [|[[y a] b] l IH]; simpl; [done|].
  destruct (lookup y a b) eqn:Hy.
  - intros (y' & a' & b' & Hin & Hy')%IH. exists y', a', b'. split; [by right|done].
  - intros [= <-]. exists y, a, b. split; [by left|done].
Qed.

(** A Python loop over [l] whose step is a value aborted at the first
    failing lookup of its own calls is the list of values, aborted at
    the first failing lookup of all the calls in order. *)
Lemma mapM_abort_calls {A B} lookup (f : A → outcome B)
    (calls : A → list (celex * Z * Z)) (h : A → B) (l : list A) :
  (∀ x, f x = abort_calls lookup (calls x) (h x)) →
  mapM f l = abort_calls lookup (l ≫= calls) (h <$> l).
Proof.
  intros Hf. unfold abort_calls. induction l as [|x l IH]; [done|].
  rewrite bind_cons, fmap_cons, first_failure_app. cbn [mapM]. rewrite Hf, IH.
  unfold abort_calls.
  by destruct (first_failure lookup (calls x)), (first_failure lookup (l ≫= calls)).
Qed.

(** Lines 67-69: the two halves abort in order. *)
Lemma abort_at_union lookup r1 r2 :
  (r1' ← abort_at lookup r1; r2' ← abort_at lookup r2; Ok (exp_union r1' r2')) =
  abort_at lookup (exp_union r1 r2).
Proof.
  unfold abort_at. simpl. rewrite first_failure_app.
  by destruct (first_failure lookup (exp_calls r1)),
              (first_failure lookup (exp_calls r2)).
Qed.

Lemma abort_at_None lookup r :
  first_failure lookup (exp_calls r) = None → abort_at lookup r = Ok r.
Proof. unfold abort_at. by intros ->. Qed.

(** A [for] loop whose body is the plain body aborted at its first
    failing lookup, and only appends to the lookup log, is the plain
    loop aborted at its first failing lookup. *)
Section Fold.
Context (lookup : celex → Z → Z → outcome (gset celex)) {B : Type}
        (f : expansion → B → outcome expansion) (g : expansion → B → expansion).
Hypothesis Hstep : ∀ acc x,
  first_failure lookup (exp_calls acc) = None → f acc x = abort_at lookup (g acc x).
Hypothesis Hext : ∀ acc x, ∃ ext, exp_calls (g acc x) = exp_calls acc ++ ext.

Lemma foldl_calls_ext acc l : ∃ ext, exp_calls (foldl g acc l) = exp_calls acc ++ ext.
Proof.
  revert acc. induction l as [|x l IH]; intros acc; simpl.
  - exists []. by rewrite app_nil_r.
  - destruct (Hext acc x) as [e1 He1], (IH (g acc x)) as [e2 ->].
    exists (e1 ++ e2). by rewrite He1, app_assoc.
Qed.

Lemma outcome_fold_abort acc l :
  first_failure lookup (exp_calls acc) = None →
  outcome_fold f acc l = abort_at lookup (foldl g acc l).
Proof.
  revert acc. induction l as [|x l IH]; intros acc Hacc; simpl.
  - by rewrite abort_at_None.
  - rewrite Hstep by done. unfold abort_at at 1.
    destruct (first_failure lookup (exp_calls (g acc x))) as [e|] eqn:He; simpl.
    + unfold abort_at. destruct (foldl_calls_ext (g acc x) l) as [ext ->].
      by rewrite first_failure_app, He.
    + by apply IH.
Qed.
End Fold.

Section Loop.
Context (lookup : celex → Z → Z → outcome (gset celex))
        (rec_exc : celex → Z → Z → gset celex → outcome expansion)
        (rec : celex → Z → Z → gset celex → expansion)
        (source : celex) (c nc nd : Z) (dr : gset celex).
Hypothesis Hrec : ∀ t c d dr, rec_exc t c d dr = abort_at lookup (rec t c d dr).

(** The loop of lines 81-93: the first recursive call that raises ends
    it; until then it runs as the plain loop. *)
Lemma loop_exc acc ts :
  first_failure lookup (exp_calls acc) = None →
  outcome_fold (visit_target_exc rec_exc source c nc nd dr) acc ts =
  abort_at lookup (foldl (visit_target rec source c nc nd dr) acc ts).
Proof.
  apply outcome_fold_abort; clear acc ts; intros acc t;
    unfold visit_target_exc, visit_target; destruct (recurse_guard nc nd t dr).
  - intros Hacc. rewrite Hrec, <-abort_at_union.
    by rewrite (abort_at_None lookup (Expansion _ _ (exp_calls acc))).
  - intros Hacc. by rewrite (abort_at_None lookup (Expansion _ _ (exp_calls acc))).
  - eexists. done.
  - exists []. by rewrite app_nil_r.
Qed.
End Loop.

Lemma structure_fuel_exc_abort lookup fuel s c d dr :
  structure_fuel_exc lookup fuel s c d dr =
  abort_at lookup (structure_fuel (answers_of lookup) fuel s c d dr).
Proof.
  revert s c d dr. induction fuel as [|fuel IH]; intros s c d dr; [done|].
  cbn [structure_fuel_exc structure_fuel]. unfold structure_body_exc, structure_body.
  destruct (bool_decide (0 < c) && bool_decide (0 < d)).
  - rewrite !IH. apply abort_at_union.
  - change (answers_of lookup s (Z.min c 1) (Z.min d 1))
      with (ok_answers (lookup s (Z.min c 1) (Z.min d 1))).
    destruct (lookup s (Z.min c 1) (Z.min d 1)) as [T|e] eqn:HT; simpl.
    + apply loop_exc; [done|]. simpl. by rewrite HT.
    + unfold abort_at. rewrite elements_empty. simpl. by rewrite HT.
Qed.

(** C25 (equivalence): over a lookup that may raise, the code returns
    exactly what the plain model returns on the lookup's answers, unless
    one of the lookups that model issues raises; then it raises the
    exception of the first of them in call order, with no partial
    result. *)
Theorem get_citations_structure_exc_abort lookup s c d dr :
  get_citations_structure_exc lookup s c d dr =
  abort_at lookup (get_citations_structure (answers_of lookup) s c d dr).
Proof. apply structure_fuel_exc_abort. Qed.

(** A traversal whose lookups all answer returns the plain model's
    result. *)
Lemma get_citations_structure_exc_total lookup s c d dr :
  (∀ y a b, (y, a, b) ∈ exp_calls (get_citations_structure (answers_of lookup) s c d dr) →
            ∃ T, lookup y a b = Ok T) →
  get_citations_structure_exc lookup s c d dr =
  Ok (get_citations_structure (answers_of lookup) s c d dr).
Proof.
  intros Hcalls. unfold get_citations_structure_exc.
  rewrite structure_fuel_exc_abort. unfold abort_at.
  by rewrite first_failure_None.
Qed.

(** C26 (error): a negative budget is not clamped: its first lookup
    formats the negative bound into the query ([{1,-1}]), the endpoint
    rejects it, and the whole traversal raises [QueryBadFormed]. *)
Theorem get_citations_structure_exc_negative kg s c d dr :
  literal_ok s = true → c < 0 ∨ d < 0 →
  get_citations_structure_exc (get_citations (sparql_service kg)) s c d dr =
  Raise QueryBadFormed.
Proof.
  intros Hs Hcd. unfold get_citations_structure_exc. cbn [structure_fuel_exc].
  unfold structure_body_exc.
  destruct (bool_decide_reflect (0 < c)), (bool_decide_reflect (0 < d)); simpl; try lia;
    (rewrite get_citations_negative; [done|done|lia]).
Qed.

Lemma get_citations_structure_exc_negative_witness :
  literal_ok "32021R0664" = true ∧ (-1 < 0 ∨ 2 < 0) ∧
  get_citations_structure_exc (get_citations (sparql_service ∅)) "32021R0664" (-1) 2 ∅ =
  Raise QueryBadFormed.
Proof.
  assert (Hs : literal_ok "32021R0664" = true) by reflexivity.
  assert (Hcd : -1 < 0 ∨ 2 < 0) by lia.
  split_and!; [exact Hs|exact Hcd|].
  exact (get_citations_structure_exc_negative ∅ _ _ _ ∅ Hs Hcd).
Defined.
