(* ===== verification/Pipeline.v ===== *)
(** * The lookup and the expander together, over the knowledge graph

    [get_citations_structure] calls [get_citations], which sends the
    query of [Sparql] to the endpoint.  On the endpoint model over a
    well-formed [citation_kg], every lookup the traversal issues is a
    query the endpoint reads ([Expander]'s hop bounds are 0 or 1, its
    sources are the seed and earlier answers), so the traversal never
    raises, and one hop of it is one citation of the graph between
    legislation documents.  The end-to-end theorem states the result in
    terms of the graph alone; the comparison with the flat lookup shows
    the price of the legislation filter: the expander misses exactly the
    legislation that [get_citations] reaches in one multi-hop query only
    through case law. *)

From S2P Require Import Prelude Reach Sparql Lookup Expander ExpanderExc.

Local Open Scope Z_scope.

(** The lookup the code runs on, over the endpoint model. *)
Definition kg_lookup (kg : citation_kg) : celex → Z → Z → outcome (gset celex) :=
  get_citations (sparql_service kg).

(** One citing hop, and one hop against the citations, between
    legislation documents of the graph. *)
Definition legis_cites (kg : citation_kg) (y : celex) : gset celex :=
  filter (λ el, is_legislation el = true) (kg_cites kg y).

Definition legis_cited (kg : citation_kg) (y : celex) : gset celex :=
  filter (λ el, is_legislation el = true) (kg_cited_by kg y).

Section Graph.
Context (kg : citation_kg) (Hwf : kg_wf kg).

Lemma kg_lookup_answers_ok y a b t :
  t ∈ answers_of (kg_lookup kg) y a b → literal_ok t = true.
Proof.
  unfold answers_of, kg_lookup, get_citations, sparql_service.
  destruct (read_query _) as [[[[s1 c1] s2] d1]|]; simpl; [|set_solver].
  rewrite elem_of_filter, elem_of_collect_targets, elem_of_elements.
  intros [_ Ht]. by eapply kg_answer_ok.
Qed.

Lemma hops_one step y : hops step 1 y = step y.
Proof.
  apply set_eq. intros t. rewrite hops_spec. split.
  - by intros (m & z & [= <-] & Hz & ->%reach_within_0).
  - intros Ht. exists 0%nat, t. eauto with cite.
Qed.

Lemma hops_zero step y : hops step 0 y = ∅.
Proof. done. Qed.

Lemma kg_lookup_one_hop y :
  literal_ok y = true →
  answers_of (kg_lookup kg) y 1 0 = legis_cites kg y ∧
  answers_of (kg_lookup kg) y 0 1 = legis_cited kg y.
Proof.
  intros Hy. unfold answers_of, kg_lookup.
  rewrite !get_citations_kg_answers; [|first [done|lia]..]. simpl.
  unfold kg_answers. rewrite !hops_one, !hops_zero, union_empty_l_L, union_empty_r_L.
  done.
Qed.

(** Every lookup of the traversal from a well-formed seed with
    non-negative budgets is answered. *)
Lemma kg_traversal_answered s c d dr :
  literal_ok s = true → 0 ≤ c → 0 ≤ d →
  get_citations_structure_exc (kg_lookup kg) s c d dr =
  Ok (get_citations_structure (answers_of (kg_lookup kg)) s c d dr).
Proof.
  intros Hs Hc Hd. apply get_citations_structure_exc_total.
  intros y a b Hin.
  destruct (get_citations_structure_calls (answers_of (kg_lookup kg))
              (λ t, literal_ok t = true) s c d dr y a b)
    as [Hab Hy]; [apply kg_lookup_answers_ok|done..|].
  eexists. apply get_citations_kg_answers; [by destruct Hy as [->|]|lia..].
Qed.

(** Paths of the lookup's one-hop answers from a well-formed seed are
    the paths of the graph's legislation citations. *)
Lemma kg_paths hc hd (step : celex → gset celex) s :
  (∀ y, literal_ok y = true → answers_of (kg_lookup kg) y hc hd = step y) →
  literal_ok s = true →
  (∀ n t, reach_within (λ y, answers_of (kg_lookup kg) y hc hd) n s t ↔
          reach_within step n s t) ∧
  (∀ n a b, edge_within (λ y, answers_of (kg_lookup kg) y hc hd) n s a b ↔
            edge_within step n s a b).
Proof.
  intros Hstep Hs.
  assert (Hcl : ∀ y z, literal_ok y = true →
            z ∈ answers_of (kg_lookup kg) y hc hd → literal_ok z = true)
    by (intros y z _; apply kg_lookup_answers_ok).
  split; intros;
    [apply (reach_within_ext_on _ _ (λ t, literal_ok t = true))
    |apply (edge_within_ext_on _ _ (λ t, literal_ok t = true))]; done.
Qed.
End Graph.

(** The traversal over the endpoint model, the lemma behind C27 and C28. *)
Lemma kg_structure_spec kg s c d x l :
  kg_wf kg → literal_ok s = true → 0 ≤ c → 0 ≤ d → (0 < c ∨ 0 < d) →
  ∃ r, get_citations_structure_exc (kg_lookup kg) s c d ∅ = Ok r ∧
    (x ∈ exp_nodes r ↔
     reach_within (legis_cites kg) (Z.to_nat c) s x ∨
     reach_within (legis_cited kg) (Z.to_nat d) s x) ∧
    (l ∈ exp_links r ↔
     (∃ a b, l = a ⇝ b ∧ edge_within (legis_cites kg) (Z.to_nat c) s a b) ∨
     (∃ a b, l = b ⇝ a ∧ edge_within (legis_cited kg) (Z.to_nat d) s a b)).
Proof.
  intros Hwf Hs Hc Hd Hcd.
  destruct (kg_paths kg Hwf 1 0 (legis_cites kg) s) as [Hr1 He1];
    [intros y Hy; exact (proj1 (kg_lookup_one_hop kg y Hy))|done|].
  destruct (kg_paths kg Hwf 0 1 (legis_cited kg) s) as [Hr2 He2];
    [intros y Hy; exact (proj2 (kg_lookup_one_hop kg y Hy))|done|].
  eexists; split; [by apply kg_traversal_answered|].
  rewrite structure_nodes_reach, structure_links_reach by done.
  rewrite Hr1, Hr2. setoid_rewrite He1. setoid_rewrite He2. done.
Qed.

(** C27 (refinement): the whole program path, [get_citations_structure]
    calling [get_citations] on the endpoint model: for a well-formed
    graph and seed and non-negative budgets, not both zero, the
    traversal raises nothing, its nodes are the documents reached from
    the seed by at most [c] citations between legislation documents, or
    by at most [d] such citations taken backwards, and its links are the
    citations those paths take, oriented citing -> cited. *)
Theorem get_citations_structure_kg kg s c d x l :
  kg_wf kg → literal_ok s = true → 0 ≤ c → 0 ≤ d → (0 < c ∨ 0 < d) →
  ∃ r, get_citations_structure_exc (kg_lookup kg) s c d ∅ = Ok r ∧
    (x ∈ exp_nodes r ↔
     reach_within (legis_cites kg) (Z.to_nat c) s x ∨
     reach_within (legis_cited kg) (Z.to_nat d) s x) ∧
    (l ∈ exp_links r ↔
     (∃ a b, l = a ⇝ b ∧ edge_within (legis_cites kg) (Z.to_nat c) s a b) ∨
     (∃ a b, l = b ⇝ a ∧ edge_within (legis_cited kg) (Z.to_nat d) s a b)).
Proof. apply kg_structure_spec. Qed.

(** ** Concrete graphs *)

(** ["3A"] cites the judgment ["6X"], which cites ["3B"]. *)
Definition case_law_kg : citation_kg :=
  <["3A" := {["6X"]}]> (<["6X" := {["3B"]}]> ∅).

(** A path of legislation citations is a path of the graph, and it
    ends at its start or at legislation. *)
Lemma legis_reach_kg kg n z t :
  reach_within (legis_cites kg) n z t →
  reach_within (kg_cites kg) n z t ∧ (t = z ∨ is_legislation t = true).
Proof.
  induction 1 as [n s|n s y t Hy _ [IHr IHl]]; [split; [constructor|by left]|].
  apply elem_of_filter in Hy as [Hly Hy]. split; [econstructor; eauto|].
  right. by destruct IHl as [->|].
Qed.

(** C28 (spec divergence): the flat lookup and the expander disagree on
    what [c] citing hops reach.  On the endpoint model, [get_citations]
    with depth [c] returns the legislation reached by 1 to [c] citations
    through any documents, in one query; the expander asks one hop at a
    time and the legislation filter drops every judgment on the way.
    Every node of the expansion is the seed or an answer of the flat
    lookup, and the flat answers it misses are exactly the legislation
    documents that [c] citations reach only through non-legislation
    documents.  The depth sweep ([get_citations_multiple]) and the graph
    builders ([get_citations_structure_multiple]) score different sets
    for the same depths. *)
Theorem get_citations_structure_cuts_case_law kg s c t :
  kg_wf kg → literal_ok s = true → 0 < c →
  ∃ A r, get_citations (sparql_service kg) s c 0 = Ok A ∧
    get_citations_structure_exc (kg_lookup kg) s c 0 ∅ = Ok r ∧
    (t ∈ exp_nodes r → t = s ∨ t ∈ A) ∧
    (t ∈ A ∧ t ∉ exp_nodes r ↔
     is_legislation t = true ∧
     (∃ m z, Z.to_nat c = S m ∧ z ∈ kg_cites kg s ∧ reach_within (kg_cites kg) m z t) ∧
     ¬ reach_within (legis_cites kg) (Z.to_nat c) s t).
Proof.
  intros Hwf Hs Hc.
  destruct (kg_structure_spec kg s c 0 t (t ⇝ t) Hwf Hs ltac:(lia) ltac:(lia) ltac:(lia))
    as (r & Hr & Hn & _).
  assert (Hnode : t ∈ exp_nodes r ↔ reach_within (legis_cites kg) (Z.to_nat c) s t).
  { rewrite Hn. simpl. rewrite reach_within_0. split; [|by left].
    intros [Hr0|Heq]; [done|subst t; constructor]. }
  exists (kg_answers kg s c 0), r.
  split_and!; [apply get_citations_kg_answers; [done|lia..]|done| |].
  - rewrite Hnode. destruct (Z.to_nat c) as [|m] eqn:Ec; [lia|].
    rewrite reach_within_S. intros [->|(y & Hy & Hyt)]; [by left|right].
    pose proof Hy as [Hly Hy']%elem_of_filter.
    destruct (legis_reach_kg _ _ _ _ Hyt) as [Hk Hl].
    apply elem_of_kg_answers. split; [by destruct Hl as [->|]|].
    left. exists m, y. rewrite Ec. done.
  - rewrite elem_of_kg_answers, Hnode. simpl. split.
    + intros [[Hl [H|(m & z & Hm & _)]] Hnr]; [done|lia].
    + intros (Hl & H & Hnr). split; [|done]. split; [done|by left].
Qed.

(** The seed ["32021R0664"] cites a regulation and a judgment; the
    judgment cites another regulation. *)
Definition sample_kg : citation_kg :=
  <["32021R0664" := {["32019R0945"; "62018CJ0311"]}]>
    (<["62018CJ0311" := {["32016R0679"]}]> ∅).

Lemma get_citations_structure_kg_witness :
  kg_wf sample_kg ∧ literal_ok "32021R0664" = true ∧ 0 ≤ 2 ∧ 0 ≤ 1 ∧ (0 < 2 ∨ 0 < 1) ∧
  ∃ r, get_citations_structure_exc (kg_lookup sample_kg) "32021R0664" 2 1 ∅ = Ok r ∧
    ("32019R0945" ∈ exp_nodes r ↔
     reach_within (legis_cites sample_kg) (Z.to_nat 2) "32021R0664" "32019R0945" ∨
     reach_within (legis_cited sample_kg) (Z.to_nat 1) "32021R0664" "32019R0945") ∧
    ("32021R0664" ⇝ "32019R0945" ∈ exp_links r ↔
     (∃ a b, "32021R0664" ⇝ "32019R0945" = a ⇝ b ∧
             edge_within (legis_cites sample_kg) (Z.to_nat 2) "32021R0664" a b) ∨
     (∃ a b, "32021R0664" ⇝ "32019R0945" = b ⇝ a ∧
             edge_within (legis_cited sample_kg) (Z.to_nat 1) "32021R0664" a b)).
Proof.
  assert (Hwf : kg_wf sample_kg) by (apply (bool_decide_unpack _); vm_compute; reflexivity).
  assert (Hs : literal_ok "32021R0664" = true) by reflexivity.
  assert (Hc : 0 ≤ 2) by lia. assert (Hd : 0 ≤ 1) by lia.
  assert (Hcd : 0 < 2 ∨ 0 < 1) by lia.
  split_and!; [exact Hwf|exact Hs|exact Hc|exact Hd|exact Hcd|].
  exact (get_citations_structure_kg sample_kg "32021R0664" 2 1 "32019R0945"
           ("32021R0664" ⇝ "32019R0945") Hwf Hs Hc Hd Hcd).
Defined.

Lemma get_citations_structure_cuts_case_law_witness :
  kg_wf case_law_kg ∧ literal_ok "3A" = true ∧ 0 < 2 ∧
  ∃ A r, get_citations (sparql_service case_law_kg) "3A" 2 0 = Ok A ∧
    get_citations_structure_exc (kg_lookup case_law_kg) "3A" 2 0 ∅ = Ok r ∧
    ("3B" ∈ exp_nodes r → "3B" = "3A" ∨ "3B" ∈ A) ∧
    ("3B" ∈ A ∧ "3B" ∉ exp_nodes r ↔
     is_legislation "3B" = true ∧
     (∃ m z, Z.to_nat 2 = S m ∧ z ∈ kg_cites case_law_kg "3A" ∧
             reach_within (kg_cites case_law_kg) m z "3B") ∧
     ¬ reach_within (legis_cites case_law_kg) (Z.to_nat 2) "3A" "3B").
Proof.
  assert (Hwf : kg_wf case_law_kg) by (apply (bool_decide_unpack _); vm_compute; reflexivity).
  assert (Hs : literal_ok "3A" = true) by reflexivity.
  assert (Hc : 0 < 2) by lia.
  split_and!; [exact Hwf|exact Hs|exact Hc|].
  exact (get_citations_structure_cuts_case_law case_law_kg "3A" 2 "3B" Hwf Hs Hc).
Defined.
