(* ===== verification/Aggregator.v ===== *)
(** * MultiSourceAggregator (helper_functions.py 46-63 and 98-107)

    [get_citations_structure_multiple] folds the expander over the
    legislation seeds, starting from the seed set itself;
    [get_citations_multiple] is the flat variant over [get_citations]
    answers, whose [union=False] branch was meant to intersect.  Both are
    parameterised by the lookup, as the expander is: over a lookup that
    answers, and (the [_exc] functions) over a lookup that raises, the
    latter proved to be the former aborted at the first failing
    lookup. *)

From S2P Require Import Prelude Reach Sparql Lookup Expander ExpanderExc.

Local Open Scope Z_scope.

Section WithLookup.
Context (lookup : celex → Z → Z → gset celex).

(** One iteration of the loop of lines 101-105: a legislation seed is
    expanded with a fresh [dont_repeat] and merged, others are kept
    as bare nodes. *)
Definition merge_source (cites_depth cited_depth : Z) (acc : expansion)
    (source : celex) : expansion :=
  if is_legislation source then
    exp_union acc (get_citations_structure lookup source cites_depth
                                           cited_depth ∅)
  else acc.

(** Lines 98-107. *)
Definition get_citations_structure_multiple (sources : list celex)
    (cites_depth cited_depth : Z) : expansion :=
  foldl (merge_source cites_depth cited_depth)
        (Expansion ∅ (list_to_set sources) []) sources.

(** Lines 54-63 on the list [results] of line 53: the source list is
    appended (line 54); [union=False] takes [results[0]] and, with more
    than one source, unions it with the rest. *)
Definition merge_results (sources : list celex) (results : list (gset celex))
    (union : bool) : gset celex :=
  let results := results ++ [list_to_set sources] in
  if union then ∅ ∪ ⋃ results
  else match results with
       | start_set :: rest =>
           if bool_decide (1 < length sources)%nat then start_set ∪ ⋃ rest
           else start_set
       | [] => ∅
       end.

(** Lines 46-63: one [get_citations] per source, then [merge_results]. *)
Definition get_citations_multiple (sources : list celex)
    (cites_depth cited_depth : Z) (union : bool) : gset celex :=
  merge_results sources
    ((λ source, lookup source cites_depth cited_depth) <$> sources) union.
End WithLookup.

(** ** Over a lookup that raises *)

Section WithRaisingLookup.
Context (lookup : celex → Z → Z → outcome (gset celex)).

(** One iteration of lines 101-105; the expansion may raise. *)
Definition merge_source_exc (cites_depth cited_depth : Z) (acc : expansion)
    (source : celex) : outcome expansion :=
  if is_legislation source then
    r ← get_citations_structure_exc lookup source cites_depth cited_depth ∅;
    Ok (exp_union acc r)
  else Ok acc.

(** Lines 98-107. *)
Definition get_citations_structure_multiple_exc (sources : list celex)
    (cites_depth cited_depth : Z) : outcome expansion :=
  outcome_fold (merge_source_exc cites_depth cited_depth)
               (Expansion ∅ (list_to_set sources) []) sources.

(** Lines 46-63: the comprehension of line 53 stops at the first
    [get_citations] that raises. *)
Definition get_citations_multiple_exc (sources : list celex)
    (cites_depth cited_depth : Z) (union : bool) : outcome (gset celex) :=
  results ← mapM (λ source, lookup source cites_depth cited_depth) sources;
  Ok (merge_results sources results union).
End WithRaisingLookup.

Section Loop.
Context (lookup : celex → Z → Z → gset celex) (c d : Z).
Local Abbreviation merge := (merge_source lookup c d).

Lemma merge_loop_nodes acc srcs x :
  x ∈ exp_nodes (foldl merge acc srcs) ↔
  x ∈ exp_nodes acc ∨
  ∃ s, s ∈ srcs ∧ is_legislation s = true ∧ x ∈ exp_nodes (get_citations_structure lookup s c d ∅).
Proof.
  revert acc. induction srcs as [|s srcs IH]; intros acc; simpl; [set_solver|].
  rewrite IH. unfold merge_source.
  destruct (is_legislation s) eqn:Hleg; [|apply not_true_iff_false in Hleg];
    simpl; rewrite ?elem_of_union;
    setoid_rewrite elem_of_cons; naive_solver.
Qed.

Lemma merge_loop_links acc srcs l :
  l ∈ exp_links (foldl merge acc srcs) ↔
  l ∈ exp_links acc ∨
  ∃ s, s ∈ srcs ∧ is_legislation s = true ∧ l ∈ exp_links (get_citations_structure lookup s c d ∅).
Proof.
  revert acc. induction srcs as [|s srcs IH]; intros acc; simpl; [set_solver|].
  rewrite IH. unfold merge_source.
  destruct (is_legislation s) eqn:Hleg; [|apply not_true_iff_false in Hleg];
    simpl; rewrite ?elem_of_union;
    setoid_rewrite elem_of_cons; naive_solver.
Qed.

Lemma merge_loop_calls acc srcs :
  exp_calls (foldl merge acc srcs) =
  exp_calls acc ++ mjoin (map (λ s, exp_calls (get_citations_structure lookup s c d ∅))
                              (filter (λ s, is_legislation s = true) srcs)).
Proof.
  revert acc. induction srcs as [|s srcs IH]; intros acc; simpl;
    [by rewrite app_nil_r|].
  rewrite IH, filter_cons. unfold merge_source.
  destruct (is_legislation s); simpl; by rewrite ?app_assoc.
Qed.
End Loop.

Section Properties.
Context (lookup : celex → Z → Z → gset celex).

(** C10: the multi-source graph is the union of the seed set with the
    expansions of the legislation seeds, each from a fresh visited
    set; case-law seeds are kept but not expanded. *)
Theorem get_citations_structure_multiple_spec sources c d :
  (∀ x, x ∈ exp_nodes (get_citations_structure_multiple lookup sources c d) ↔
     x ∈ sources ∨
     ∃ s, s ∈ sources ∧ is_legislation s = true ∧ x ∈ exp_nodes (get_citations_structure lookup s c d ∅)) ∧
  (∀ l, l ∈ exp_links (get_citations_structure_multiple lookup sources c d) ↔
     ∃ s, s ∈ sources ∧ is_legislation s = true ∧ l ∈ exp_links (get_citations_structure lookup s c d ∅)).
Proof.
  unfold get_citations_structure_multiple.
  split; intros; [rewrite merge_loop_nodes|rewrite merge_loop_links];
    simpl; rewrite ?elem_of_list_to_set; set_solver.
Qed.

(** C11: the lookups of the multi-source run are those of the
    legislation seeds' expansions, seed after seed in list order. *)
Theorem get_citations_structure_multiple_calls sources c d :
  exp_calls (get_citations_structure_multiple lookup sources c d) =
  mjoin (map (λ s, exp_calls (get_citations_structure lookup s c d ∅))
             (filter (λ s, is_legislation s = true) sources)).
Proof. unfold get_citations_structure_multiple. by rewrite merge_loop_calls. Qed.


(** C14: the [union=True] result is the seed set together with every
    lookup answer of every seed. *)
Theorem get_citations_multiple_union sources c d x :
  x ∈ get_citations_multiple lookup sources c d true ↔
  x ∈ sources ∨ ∃ s, s ∈ sources ∧ x ∈ lookup s c d.
Proof.
  unfold get_citations_multiple, merge_results. rewrite elem_of_union, elem_of_union_list.
  setoid_rewrite elem_of_app. setoid_rewrite list_elem_of_singleton.
  setoid_rewrite list_elem_of_fmap. split.
  - intros [[]%not_elem_of_empty|(X & [(y & -> & Hy)| ->] & Hx)];
      [right; eauto|left; by apply elem_of_list_to_set in Hx].
  - intros [Hx|(y & Hy & Hx)]; right.
    + exists (list_to_set sources). split; [by right|by apply elem_of_list_to_set].
    + exists (lookup y c d). split; [left; eauto|done].
Qed.

(** C12 (code bug): the [union=False] branch, documented as the
    intersection of the sources' results, never intersects: with more
    than one source (or none) it computes their union (line 61 calls
    [union]), and with a single source it returns that source's lookup
    answers alone, dropping the seed line 54 means to include. *)
Theorem get_citations_multiple_not_intersection sources c d :
  get_citations_multiple lookup sources c d false =
  match sources with
  | [s] => lookup s c d
  | _ => get_citations_multiple lookup sources c d true
  end.
Proof.
  unfold get_citations_multiple, merge_results.
  destruct sources as [|s1 [|s2 srcs]]; simpl; [set_solver|done|].
  set_solver.
Qed.
End Properties.

(** ** Over a lookup that raises: the first failing lookup aborts *)

Lemma mapM_lookups_exc lookup sources c d :
  mapM (λ source, lookup source c d) sources =
  abort_calls lookup ((λ s, (s, c, d)) <$> sources)
              ((λ s, answers_of lookup s c d) <$> sources).
Proof.
  unfold abort_calls. induction sources as [|s sources IH]; [done|]. simpl.
  unfold answers_of at 1, ok_answers.
  destruct (lookup s c d) as [T|e]; simpl; [|done].
  rewrite IH. by destruct (first_failure _ _).
Qed.

Lemma get_citations_multiple_exc_abort lookup sources c d union :
  get_citations_multiple_exc lookup sources c d union =
  abort_calls lookup ((λ s, (s, c, d)) <$> sources)
              (get_citations_multiple (answers_of lookup) sources c d union).
Proof.
  unfold get_citations_multiple_exc, get_citations_multiple.
  rewrite mapM_lookups_exc. unfold abort_calls. by destruct (first_failure _ _).
Qed.

Lemma get_citations_structure_multiple_exc_abort_at lookup sources c d :
  get_citations_structure_multiple_exc lookup sources c d =
  abort_at lookup (get_citations_structure_multiple (answers_of lookup) sources c d).
Proof.
  apply outcome_fold_abort; [clear; intros acc s Hacc|clear; intros acc s|done];
    unfold merge_source_exc, merge_source; destruct (is_legislation s).
  - unfold get_citations_structure_exc, get_citations_structure.
    by rewrite structure_fuel_exc_abort, <-abort_at_union, (abort_at_None lookup acc Hacc).
  - by rewrite (abort_at_None lookup acc Hacc).
  - eexists. done.
  - exists []. by rewrite app_nil_r.
Qed.

(** C30 (equivalence): over a lookup that may raise, the multi-source
    run returns what the plain model returns on the lookup's answers,
    unless a lookup of one of the legislation seeds' expansions raises:
    then the first failure, seed after seed, is the exception of the
    whole call, and the seeds already merged are lost. *)
Theorem get_citations_structure_multiple_exc_abort lookup sources c d :
  get_citations_structure_multiple_exc lookup sources c d =
  abort_at lookup (get_citations_structure_multiple (answers_of lookup) sources c d).
Proof. apply get_citations_structure_multiple_exc_abort_at. Qed.
