(* ===== verification/Stats.v ===== *)
(** * GraphStatsEvaluator: [do_stats] (helper_functions.py 110-123)

    Precision, recall and F1 of a found node set against the expert set.
    The code reads a module global [expert_docs] that the repository
    never assigns; here it is an explicit argument.  Python float
    division is modelled by exact division on [Q], raising
    [ZeroDivisionError] on a zero denominator as float division does;
    the printing of lines 116-122 is output only and not modelled. *)

From S2P Require Import Prelude.
From Stdlib Require Import QArith Lqa.

(** [a / b] on Python floats. *)
Definition py_div (a b : Q) : outcome Q :=
  if Qeq_bool b 0 then Raise ZeroDivisionError else Ok (a / b).

(** [float(len(s))]. *)
Definition card (s : gset celex) : Q := inject_Z (Z.of_nat (size s)).

(** Lines 110-123. *)
Definition do_stats (expert_docs nodes : gset celex) : outcome (Q * Q * Q) :=
  precision ← py_div (card (nodes ∩ expert_docs)) (card nodes);
  recall ← py_div (card (nodes ∩ expert_docs)) (card expert_docs);
  f1 ← py_div (2 * (precision * recall)) (precision + recall);
  Ok (precision, recall, f1).

Lemma py_div_Ok a b q : py_div a b = Ok q ↔ ¬ (b == 0) ∧ q = a / b.
Proof.
  unfold py_div. destruct (Qeq_bool b 0) eqn:E.
  - apply Qeq_bool_iff in E. split; [done|naive_solver].
  - apply Qeq_bool_neq in E. split; [intros [= <-]|intros [_ ->]]; done.
Qed.

Lemma py_div_Raise a b e : py_div a b = Raise e ↔ b == 0 ∧ e = ZeroDivisionError.
Proof.
  unfold py_div. destruct (Qeq_bool b 0) eqn:E.
  - apply Qeq_bool_iff in E. naive_solver.
  - apply Qeq_bool_neq in E. naive_solver.
Qed.

Lemma card_nonneg s : 0 <= card s.
Proof.
  unfold card. change 0 with (inject_Z 0). rewrite <-Zle_Qle. lia.
Qed.

Lemma card_zero s : card s == 0 ↔ s = ∅.
Proof.
  unfold card. change 0 with (inject_Z 0). rewrite inject_Z_injective.
  split; [intros H; apply leibniz_equiv, size_empty_iff; lia|intros ->].
  by rewrite size_empty.
Qed.

Lemma card_intersection_le s t : card (s ∩ t) <= card s.
Proof.
  unfold card. rewrite <-Zle_Qle. apply inj_le, subseteq_size. set_solver.
Qed.

Lemma card_intersection_le_r s t : card (s ∩ t) <= card t.
Proof.
  unfold card. rewrite <-Zle_Qle. apply inj_le, subseteq_size. set_solver.
Qed.

(** A ratio [a / b] with [0 <= a <= b] and [b] non-zero is in [0, 1]. *)
Lemma ratio_unit a b : 0 <= a → a <= b → ¬ (b == 0) → 0 <= a / b <= 1.
Proof.
  intros Ha Hab Hb.
  assert (Hb' : 0 < b).
  { apply Qnot_le_lt. intros H. apply Hb. apply Qle_antisym; lra. }
  split; [apply Qle_shift_div_l|apply Qle_shift_div_r]; lra.
Qed.

Lemma ratio_zero a b : ¬ (b == 0) → a / b == 0 ↔ a == 0.
Proof.
  intros Hb. split; intros H.
  - rewrite <-(Qmult_div_r a b Hb), H. ring.
  - rewrite H. unfold Qdiv. ring.
Qed.

(** Precision plus recall vanishes exactly when nothing was found in
    common, once both sets are non-empty. *)
Lemma stats_sum_zero nodes expert_docs :
  ¬ (card nodes == 0) → ¬ (card expert_docs == 0) →
  card (nodes ∩ expert_docs) / card nodes +
  card (nodes ∩ expert_docs) / card expert_docs == 0 ↔
  nodes ∩ expert_docs = ∅.
Proof.
  intros Hn He. rewrite <-card_zero.
  pose proof (ratio_unit _ _ (card_nonneg (nodes ∩ expert_docs))
                (card_intersection_le nodes expert_docs) Hn).
  pose proof (ratio_unit _ _ (card_nonneg (nodes ∩ expert_docs))
                (card_intersection_le_r nodes expert_docs) He).
  split; intros Hz.
  - apply (ratio_zero _ _ Hn). lra.
  - apply (ratio_zero _ _ Hn) in Hz as H1. apply (ratio_zero _ _ He) in Hz as H2.
    lra.
Qed.


#[export] Hint Resolve card_nonneg card_intersection_le card_intersection_le_r : cite.

(** The three divisions of lines 113-115 succeeded. *)
Lemma do_stats_Ok expert_docs nodes p r f :
  do_stats expert_docs nodes = Ok (p, r, f) →
  ¬ (card nodes == 0) ∧ ¬ (card expert_docs == 0) ∧ ¬ (p + r == 0) ∧
  p = card (nodes ∩ expert_docs) / card nodes ∧
  r = card (nodes ∩ expert_docs) / card expert_docs ∧
  f = 2 * (p * r) / (p + r).
Proof.
  unfold do_stats. intros H.
  apply outcome_bind_eq_Ok in H as (p' & Hp & H).
  apply outcome_bind_eq_Ok in H as (r' & Hr & H).
  apply outcome_bind_eq_Ok in H as (f' & Hf & [= <- <- <-]).
  apply py_div_Ok in Hp as [? ->], Hr as [? ->], Hf as [? ->]. done.
Qed.

(** The only exception [do_stats] raises is the division by zero. *)
Lemma do_stats_raise_zero expert_docs nodes e :
  do_stats expert_docs nodes = Raise e → e = ZeroDivisionError.
Proof.
  unfold do_stats.
  destruct (py_div _ (card nodes)) as [p|e0] eqn:Hp; simpl;
    [|intros [= <-]; by apply py_div_Raise in Hp as [_ ->]].
  destruct (py_div _ (card expert_docs)) as [r|e0] eqn:Hr; simpl;
    [|intros [= <-]; by apply py_div_Raise in Hr as [_ ->]].
  destruct (py_div (2 * (p * r)) (p + r)) as [f|e0] eqn:Hf; simpl; [intros [=]|].
  intros [= <-]. by apply py_div_Raise in Hf as [_ ->].
Qed.

(** C15 (bounds): whenever [do_stats] returns, precision, recall and F1
    all lie in [0, 1]. *)
Theorem do_stats_bounds expert_docs nodes p r f :
  do_stats expert_docs nodes = Ok (p, r, f) →
  0 <= p <= 1 ∧ 0 <= r <= 1 ∧ 0 <= f <= 1.
Proof.
  intros (Hn & He & Hpr & -> & -> & ->)%do_stats_Ok.
  pose proof (ratio_unit _ _ (card_nonneg (nodes ∩ expert_docs))
                (card_intersection_le nodes expert_docs) Hn).
  pose proof (ratio_unit _ _ (card_nonneg (nodes ∩ expert_docs))
                (card_intersection_le_r nodes expert_docs) He).
  split_and!; try lra; apply ratio_unit; try done; nra.
Qed.

(** C16 (error): [do_stats] raises, and raises only [ZeroDivisionError],
    exactly when the found set is empty, the expert set is empty, or
    they share no document (then precision + recall is 0). *)
Theorem do_stats_raise expert_docs nodes e :
  do_stats expert_docs nodes = Raise e ↔
  e = ZeroDivisionError ∧
  (nodes = ∅ ∨ expert_docs = ∅ ∨ nodes ∩ expert_docs = ∅).
Proof.
  unfold do_stats.
  destruct (py_div _ (card nodes)) as [p|e0] eqn:Hp; simpl;
    [apply py_div_Ok in Hp as [Hn ->]|
     apply py_div_Raise in Hp as [Hn ->]; apply card_zero in Hn; naive_solver].
  destruct (py_div _ (card expert_docs)) as [r|e0] eqn:Hr; simpl;
    [apply py_div_Ok in Hr as [He ->]|
     apply py_div_Raise in Hr as [He ->]; apply card_zero in He; naive_solver].
  rewrite card_zero in Hn, He.
  destruct (py_div _ _) as [f|e0] eqn:Hf; simpl.
  - apply py_div_Ok in Hf as [Hpr _].
    rewrite stats_sum_zero in Hpr by (by rewrite card_zero). naive_solver.
  - apply py_div_Raise in Hf as [Hpr ->].
    rewrite stats_sum_zero in Hpr by (by rewrite card_zero). naive_solver.
Qed.

(** C17 (functional): the F1 of [do_stats] is the harmonic mean of
    precision and recall: [2 |found ∩ expert| / (|found| + |expert|)]. *)
Theorem do_stats_f1 expert_docs nodes p r f :
  do_stats expert_docs nodes = Ok (p, r, f) →
  f == 2 * card (nodes ∩ expert_docs) / (card nodes + card expert_docs).
Proof.
  intros (Hn & He & Hpr & -> & -> & ->)%do_stats_Ok.
  assert (Hk : ¬ (card (nodes ∩ expert_docs) == 0)).
  { intros Hk. apply Hpr. rewrite Hk. unfold Qdiv. ring. }
  pose proof (card_nonneg nodes). pose proof (card_nonneg expert_docs).
  assert (Hs : ¬ (card nodes + card expert_docs == 0)).
  { intros Hs. apply Hn. apply Qle_antisym; lra. }
  field. split_and!; try done. intros Hz.
  assert (Hm : card (nodes ∩ expert_docs) * (card nodes + card expert_docs) == 0)
    by (rewrite <-Hz; ring).
  apply Qmult_integral in Hm. tauto.
Qed.

(** ** Witnesses: an expert set and a found set sharing one document *)

Definition sample_expert : gset celex := {["32019R0945"; "32016R0679"]}.
Definition sample_found : gset celex := {["32021R0664"; "32019R0945"]}.

Lemma do_stats_bounds_witness :
  ∃ p r f, do_stats sample_expert sample_found = Ok (p, r, f) ∧
           (0 <= p <= 1 ∧ 0 <= r <= 1 ∧ 0 <= f <= 1).
Proof.
  eexists _, _, _. split; [vm_compute; reflexivity|].
  apply (do_stats_bounds sample_expert sample_found). vm_compute. reflexivity.
Defined.

Lemma do_stats_f1_witness :
  ∃ p r f, do_stats sample_expert sample_found = Ok (p, r, f) ∧
           f == 2 * card (sample_found ∩ sample_expert) /
                (card sample_found + card sample_expert).
Proof.
  eexists _, _, _. split; [vm_compute; reflexivity|].
  eapply (do_stats_f1 sample_expert sample_found). vm_compute. reflexivity.
Defined.
