(* ===== verification/Graph.v ===== *)
(** * DegreeFilter: networkx's undirected graph and [generate_network]'s
      degree filter (main.py 52-60)

    networkx is a library, not code of this repository: [nx_graph],
    [add_edge], [add_edges_from], [neighbors] and [degree] model its
    documented behaviour ([Graph._adj] as a map from node to neighbour
    set; [G.degree[n] = len(adj[n]) + (n in adj[n])], so a self-loop
    counts twice), and [nx_wf] states the invariant networkx keeps for
    an undirected graph (a symmetric adjacency), which [add_edge] and
    [add_edges_from] preserve.  [degree_filter] is the repository's own
    set comprehension over [g.degree]. *)

From S2P Require Import Prelude.

Local Open Scope Z_scope.

(** [nx.Graph()]: the adjacency of every node. *)
Abbreviation nx_graph := (gmap celex (gset celex)).

Definition neighbors (g : nx_graph) (n : celex) : gset celex :=
  default ∅ (g !! n).

(** [G.add_edge(u, v)]: [adj[u][v]] and [adj[v][u]], creating nodes. *)
Definition add_edge (g : nx_graph) (u v : celex) : nx_graph :=
  let g := <[u := neighbors g u ∪ {[v]}]> g in
  <[v := neighbors g v ∪ {[u]}]> g.

(** [G.add_edges_from(links)], iterating the set [links]. *)
Definition add_edges_from (g : nx_graph) (links : gset link) : nx_graph :=
  foldl (λ g (l : link), add_edge g l.1 l.2) g (elements links).

(** [G.degree[n]] for an undirected [Graph]. *)
Definition degree (g : nx_graph) (n : celex) : nat :=
  size (neighbors g n) + (if bool_decide (n ∈ neighbors g n) then 1 else 0).

(** Lines 52-60 without the stats call: build the graph from the links
    and keep the nodes of degree at least [filter_degree], or all of
    them when filtering is off. *)
Definition degree_filter (links : gset link) (filter_degree : Z)
    (filter_network : bool) : gset celex :=
  let g := add_edges_from ∅ links in
  if filter_network
  then filter (λ node, filter_degree ≤ Z.of_nat (degree g node)) (dom g)
  else dom g.

(** networkx's invariant of an undirected [Graph]: the adjacency is
    symmetric, [v in adj[u]] exactly when [u in adj[v]]. *)
Definition nx_wf (g : nx_graph) : Prop :=
  map_Forall (λ u nbrs, set_Forall (λ v, u ∈ neighbors g v) nbrs) g.

#[export] Instance nx_wf_dec g : Decision (nx_wf g).
Proof. unfold nx_wf. apply _. Defined.

(** The undirected view of a link set, as the spec describes the graph:
    its endpoints and, for a node, the distinct documents it shares a
    link with in either direction. *)
Definition endpoints (links : gset link) : gset celex :=
  list_to_set (elements links ≫= λ l, [l.1; l.2]).

Definition undirected_neighbors (links : gset link) (n : celex) : gset celex :=
  filter (λ m, n ⇝ m ∈ links ∨ m ⇝ n ∈ links) (endpoints links).

Lemma elem_of_endpoints links n :
  n ∈ endpoints links ↔ ∃ m, n ⇝ m ∈ links ∨ m ⇝ n ∈ links.
Proof.
  unfold endpoints. rewrite elem_of_list_to_set, list_elem_of_bind.
  setoid_rewrite elem_of_elements. split.
  - intros ([a b] & Hn & Hl). simpl in Hn. set_unfold. naive_solver.
  - intros (m & [Hl|Hl]); eexists; split; try exact Hl; set_solver.
Qed.

Lemma neighbors_add_edge g u v n m :
  m ∈ neighbors (add_edge g u v) n ↔
  m ∈ neighbors g n ∨ (n = u ∧ m = v) ∨ (n = v ∧ m = u).
Proof.
  unfold add_edge, neighbors at 1. rewrite !lookup_insert.
  unfold neighbors. repeat case_decide; simplify_eq; simpl;
    rewrite ?lookup_insert; repeat case_decide; simplify_eq; simpl; set_solver.
Qed.

Lemma dom_add_edge g u v n :
  n ∈ dom (add_edge g u v) ↔ n ∈ dom g ∨ n = u ∨ n = v.
Proof. unfold add_edge. rewrite !dom_insert_L. set_solver. Qed.

Lemma add_edges_loop g (ls : list link) n m :
  (m ∈ neighbors (foldl (λ g (l : link), add_edge g l.1 l.2) g ls) n ↔
   m ∈ neighbors g n ∨ n ⇝ m ∈ ls ∨ m ⇝ n ∈ ls) ∧
  (n ∈ dom (foldl (λ g (l : link), add_edge g l.1 l.2) g ls) ↔
   n ∈ dom g ∨ ∃ m, n ⇝ m ∈ ls ∨ m ⇝ n ∈ ls).
Proof.
  revert g. induction ls as [|[a b] ls IH]; intros g; simpl.
  - set_solver.
  - rewrite (proj1 (IH _)), (proj2 (IH _)), neighbors_add_edge, dom_add_edge.
    setoid_rewrite elem_of_cons. split; naive_solver.
Qed.

Lemma nx_wf_spec g : nx_wf g ↔ ∀ u v, v ∈ neighbors g u → u ∈ neighbors g v.
Proof.
  unfold nx_wf, neighbors. rewrite map_Forall_lookup. split.
  - intros H u v. destruct (g !! u) as [nbrs|] eqn:E; simpl; [|set_solver].
    intros Hv. exact (H u nbrs E v Hv).
  - intros H u nbrs E v Hv. apply (H u v). by rewrite E.
Qed.

(** [add_edge] keeps the adjacency symmetric. *)
Lemma add_edge_wf g u v : nx_wf g → nx_wf (add_edge g u v).
Proof.
  rewrite !nx_wf_spec. intros Hg a b. rewrite !neighbors_add_edge.
  intros [H|H]; [left; by apply Hg|naive_solver].
Qed.

Lemma add_edges_from_wf g links : nx_wf g → nx_wf (add_edges_from g links).
Proof.
  intros Hg. unfold add_edges_from. apply foldl_invariant; [done|].
  intros g' l _. apply add_edge_wf.
Qed.

(** What [G = nx.Graph(); G.add_edges_from(links)] holds: a node's
    neighbours are the documents it shares a link with, in either
    direction, and its nodes are the links' endpoints. *)
Lemma add_edges_from_neighbors links n :
  neighbors (add_edges_from ∅ links) n = undirected_neighbors links n.
Proof.
  apply set_eq. intros m. unfold add_edges_from, undirected_neighbors.
  rewrite (proj1 (add_edges_loop _ _ _ _)), elem_of_filter, elem_of_endpoints.
  setoid_rewrite elem_of_elements. unfold neighbors. simpl. set_solver.
Qed.

Lemma add_edges_from_dom links :
  dom (add_edges_from ∅ links) = endpoints links.
Proof.
  apply set_eq. intros n. unfold add_edges_from.
  rewrite (proj2 (add_edges_loop _ _ n n)), elem_of_endpoints.
  setoid_rewrite elem_of_elements. rewrite dom_empty_L. set_solver.
Qed.

Lemma elem_of_add_edges_from_neighbors links n m :
  m ∈ neighbors (add_edges_from ∅ links) n ↔ n ⇝ m ∈ links ∨ m ⇝ n ∈ links.
Proof.
  rewrite add_edges_from_neighbors. unfold undirected_neighbors.
  rewrite elem_of_filter, elem_of_endpoints. naive_solver.
Qed.

Lemma add_edges_from_empty_wf links : nx_wf (add_edges_from ∅ links).
Proof. apply add_edges_from_wf, map_Forall_empty. Qed.

(** C18 (refinement): a document survives the degree filter exactly when
    it is an endpoint of some link and its number of distinct
    neighbours, plus one for a self-citation (networkx counts a
    self-loop twice), reaches the threshold. *)
Theorem degree_filter_spec links filter_degree n :
  n ∈ degree_filter links filter_degree true ↔
  n ∈ endpoints links ∧
  filter_degree ≤ Z.of_nat (size (undirected_neighbors links n) +
                            if bool_decide (n ⇝ n ∈ links) then 1 else 0).
Proof.
  unfold degree_filter, degree. rewrite elem_of_filter, add_edges_from_dom,
    add_edges_from_neighbors.
  assert (Hloop : n ∈ undirected_neighbors links n ↔ n ⇝ n ∈ links).
  { unfold undirected_neighbors. rewrite elem_of_filter, elem_of_endpoints.
    naive_solver. }
  rewrite (bool_decide_ext _ _ Hloop). tauto.
Qed.

(** C19: with the filter off, or a threshold of at most 0, the result
    is every endpoint of the links; seeds without links are not in it. *)
Theorem degree_filter_all links filter_degree filter_network :
  (filter_degree ≤ 0 ∨ filter_network = false) →
  degree_filter links filter_degree filter_network = endpoints links.
Proof.
  intros Hk. unfold degree_filter. rewrite add_edges_from_dom.
  destruct filter_network; [|done].
  apply set_eq. intros n. rewrite elem_of_filter. destruct Hk as [Hk|]; [|done].
  split; [intros [_ ?]; done|intros; split; [lia|done]].
Qed.

(** The spec's scenario: links [A -> B] and [B -> C] with minimum
    degree 2 keep [B] alone. *)
Example degree_filter_chain :
  degree_filter {["3A" ⇝ "3B"; "3B" ⇝ "3C"]} 2 true = {["3B"]}.
Proof. vm_compute. reflexivity. Qed.

Lemma degree_filter_all_witness :
  (0 ≤ 0 ∨ true = false) ∧
  degree_filter {["3A" ⇝ "3B"]} 0 true = endpoints {["3A" ⇝ "3B"]}.
Proof.
  assert (H : 0 ≤ 0 ∨ true = false) by (left; lia).
  split; [exact H|]. exact (degree_filter_all _ _ _ H).
Defined.
