(* ===== verification/Visualise.v ===== *)
(** * The HTML rendering: [visualise_network] (main.py 66-71)

    The function builds a pyvis [Network], adds the filtered nodes and
    the edges of a networkx graph [g] whose two ends are both filtered,
    and writes the page with [nt.show].  [g] is a global the module
    never defines; here it is an argument, as [expert_docs] is for
    [do_stats].  (The [def] line puts a parameter without a default
    after defaulted ones, so the module does not parse; the body is
    modelled as it reads.)  [width] and [height] only size the page,
    and the comprehension's [source] shadows the parameter of that
    name, which is unused.

    pyvis and networkx are libraries: [pyvis_network], [nt_add_node],
    [nt_add_nodes], [nt_add_edge] and [nt_add_edges] model pyvis's
    [Network] methods.  [add_nodes] tries [node = int(node)] on every id
    and adds the int when that succeeds, the string otherwise, so node
    ids are [py_node_id]s and [py_int_of_str] models Python's [int()] on
    a [str] (surrounding whitespace, one sign, decimal digits with
    single underscores between them; the model's strings hold the code
    points 0-255).  [add_node] skips an id already present; [add_edge]
    asserts that both ends, as given (strings here), are node ids, and
    in an undirected network skips an edge already present in either
    orientation.  [graph_edges] models iteration over [Graph.edges]
    (each undirected edge once, from the first of its ends in node
    order; on a graph with [Graph.nx_wf] it yields every adjacency).
    The page write is output, not modelled: the theorems are about the
    network it renders, or the assertion that stops it. *)

From S2P Require Import Prelude Graph.
From Stdlib Require Import Ascii.

(** ** Python's [int()] on a string *)

(** [str.isspace()] on the code points 0-255. *)
Definition py_space (a : ascii) : bool :=
  let n := Ascii.nat_of_ascii a in
  ((9 <=? n) && (n <=? 13)) || ((28 <=? n) && (n <=? 32)) || (n =? 133) || (n =? 160).

(** A decimal digit and its value. *)
Definition py_digit (a : ascii) : option Z :=
  let n := Ascii.nat_of_ascii a in
  if (48 <=? n) && (n <=? 57) then Some (Z.of_nat (n - 48)) else None.

(** Digits, with single underscores between two digits. *)
Fixpoint py_digits (acc : Z) (after_digit : bool) (l : list ascii) : option Z :=
  match l with
  | [] => if after_digit then Some acc else None
  | a :: l' =>
      match py_digit a with
      | Some v => py_digits (10 * acc + v)%Z true l'
      | None =>
          if after_digit && Ascii.eqb a "_"%char then py_digits acc false l' else None
      end
  end.

Fixpoint py_lstrip (l : list ascii) : list ascii :=
  match l with
  | a :: l' => if py_space a then py_lstrip l' else l
  | [] => []
  end.

Definition py_strip (l : list ascii) : list ascii :=
  reverse (py_lstrip (reverse (py_lstrip l))).

(** [int(s)]: [Some] value, or [None] where Python raises [ValueError]. *)
Definition py_int_of_str (s : string) : option Z :=
  match py_strip (String.list_ascii_of_string s) with
  | a :: l =>
      if Ascii.eqb a "+"%char then py_digits 0 false l
      else if Ascii.eqb a "-"%char then Z.opp <$> py_digits 0 false l
      else py_digits 0 false (a :: l)
  | [] => None
  end.

(** ** pyvis *)

(** A pyvis node id: [add_node] accepts an [int] or a [str]. *)
Inductive py_node_id :=
| NodeInt (z : Z)
| NodeStr (s : string).

#[export] Instance py_node_id_eq_dec : EqDecision py_node_id.
Proof. solve_decision. Defined.

(** The id [add_nodes] adds for [node]: [int(node)] if it succeeds. *)
Definition pyvis_node_id (node : celex) : py_node_id :=
  match py_int_of_str node with Some z => NodeInt z | None => NodeStr node end.

(** A pyvis [Network]: its node ids and its edges, in insertion order. *)
Record pyvis_network := PyvisNetwork {
  nt_nodes : list py_node_id;
  nt_edges : list link
}.

(** [nt.add_node(n_id)]. *)
Definition nt_add_node (nt : pyvis_network) (n : py_node_id) : pyvis_network :=
  if bool_decide (n ∈ nt_nodes nt) then nt
  else PyvisNetwork (nt_nodes nt ++ [n]) (nt_edges nt).

(** [nt.add_nodes(nodes)]: [add_node(int(node))], or [add_node(node)]
    when [int] raises. *)
Definition nt_add_nodes (nt : pyvis_network) (nodes : list celex) : pyvis_network :=
  foldl (λ nt node, nt_add_node nt (pyvis_node_id node)) nt nodes.

(** [nt.add_edge(source, to)] in an undirected network: the two
    assertions [source in self.get_nodes()] and [to in ...]. *)
Definition nt_add_edge (nt : pyvis_network) (source to : celex) : outcome pyvis_network :=
  if bool_decide (NodeStr source ∈ nt_nodes nt) then
    if bool_decide (NodeStr to ∈ nt_nodes nt) then
      if bool_decide ((source, to) ∈ nt_edges nt ∨ (to, source) ∈ nt_edges nt)
      then Ok nt
      else Ok (PyvisNetwork (nt_nodes nt) (nt_edges nt ++ [(source, to)]))
    else Raise AssertionError
  else Raise AssertionError.

(** [nt.add_edges(edges)]: [add_edge] on each pair, in order. *)
Definition nt_add_edges (nt : pyvis_network) (edges : list link) : outcome pyvis_network :=
  outcome_fold (λ nt (e : link), nt_add_edge nt e.1 e.2) nt edges.

(** [g.edges] of a networkx [Graph]: for each node in order, its
    neighbours not yet seen as a node. *)
Definition graph_edges_step (st : gset celex * list link)
    (nn : celex * gset celex) : gset celex * list link :=
  (st.1 ∪ {[nn.1]},
   st.2 ++ ((λ nbr, nn.1 ⇝ nbr) <$> filter (λ nbr, nbr ∉ st.1) (elements nn.2))).

Definition graph_edges (g : nx_graph) : list link :=
  (foldl graph_edges_step (∅, []) (map_to_list g)).2.

(** Lines 66-71, up to [nt.show]: the network the page renders. *)
Definition visualise_network (g : nx_graph) (width height : Z)
    (filtered : gset celex) (source : celex) : outcome pyvis_network :=
  let nt := PyvisNetwork [] [] in
  let nt := nt_add_nodes nt (elements filtered) in
  nt_add_edges nt (filter (λ e : link, e.1 ∈ filtered ∧ e.2 ∈ filtered) (graph_edges g)).

(** An ASCII letter: every CELEX number holds one (its document type). *)
Definition is_letter (a : ascii) : bool :=
  let n := Ascii.nat_of_ascii a in
  ((65 <=? n) && (n <=? 90)) || ((97 <=? n) && (n <=? 122)).

(** ** [int()] fails on an identifier that holds a letter *)

(** A letter is no digit, no underscore and no whitespace. *)
Lemma letter_class a :
  is_letter a = true →
  py_digit a = None ∧ Ascii.eqb a "_"%char = false ∧ py_space a = false.
Proof.
  destruct a as [[] [] [] [] [] [] [] []]; intros Hl;
    (discriminate || (split_and!; reflexivity)).
Qed.

Lemma py_digits_letter acc b l a :
  a ∈ l → is_letter a = true → py_digits acc b l = None.
Proof.
  revert acc b. induction l as [|x l IH]; intros acc b Ha Hl; [by apply elem_of_nil in Ha|].
  apply elem_of_cons in Ha as [Heq|Ha]; simpl.
  - subst x. destruct (letter_class a Hl) as (-> & -> & _). by rewrite andb_false_r.
  - destruct (py_digit x); [by apply IH|]. destruct (b && _); [by apply IH|done].
Qed.

Lemma py_lstrip_letter l a : a ∈ l → is_letter a = true → a ∈ py_lstrip l.
Proof.
  induction l as [|x l IH]; simpl; [done|].
  intros [Heq|Ha]%elem_of_cons Hl.
  - subst x. destruct (letter_class a Hl) as (_ & _ & ->). by left.
  - destruct (py_space x); [by apply IH|by right].
Qed.

Lemma py_strip_letter l a : a ∈ l → is_letter a = true → a ∈ py_strip l.
Proof.
  intros Ha Hl. unfold py_strip. rewrite elem_of_reverse.
  apply py_lstrip_letter; [|done]. rewrite elem_of_reverse. by apply py_lstrip_letter.
Qed.

Lemma py_int_of_str_letter s a :
  a ∈ String.list_ascii_of_string s → is_letter a = true → py_int_of_str s = None.
Proof.
  intros Ha Hl. unfold py_int_of_str.
  pose proof (py_strip_letter _ _ Ha Hl) as Hs.
  destruct (py_strip _) as [|x l]; [done|].
  assert (Hx : a = x ∨ a ∈ l) by (by apply elem_of_cons).
  destruct (Ascii.eqb x "+"%char) eqn:Ep.
  - apply Ascii.eqb_eq in Ep as ->. destruct Hx as [->|Hx]; [done|].
    by apply (py_digits_letter _ _ _ a).
  - destruct (Ascii.eqb x "-"%char) eqn:Em.
    + apply Ascii.eqb_eq in Em as ->. destruct Hx as [->|Hx]; [done|].
      by rewrite (py_digits_letter _ _ _ a).
    + by apply (py_digits_letter _ _ _ a).
Qed.

(** ** The pyvis network *)

Lemma pyvis_node_id_str m n :
  pyvis_node_id m = NodeStr n ↔ m = n ∧ py_int_of_str n = None.
Proof.
  unfold pyvis_node_id. destruct (py_int_of_str m) eqn:E; split; naive_solver.
Qed.

Lemma pyvis_node_id_int m z : pyvis_node_id m = NodeInt z ↔ py_int_of_str m = Some z.
Proof. unfold pyvis_node_id. destruct (py_int_of_str m); naive_solver. Qed.

Lemma nt_add_nodes_spec nt ns :
  (∀ x, x ∈ nt_nodes (nt_add_nodes nt ns) ↔
        x ∈ nt_nodes nt ∨ ∃ n, n ∈ ns ∧ x = pyvis_node_id n) ∧
  nt_edges (nt_add_nodes nt ns) = nt_edges nt.
Proof.
  unfold nt_add_nodes. revert nt. induction ns as [|n ns IH]; intros nt; simpl;
    [set_solver|].
  destruct (IH (nt_add_node nt (pyvis_node_id n))) as [Hn He].
  setoid_rewrite Hn. rewrite He. setoid_rewrite elem_of_cons.
  unfold nt_add_node. case_bool_decide; simpl;
    [|setoid_rewrite elem_of_app; setoid_rewrite list_elem_of_singleton];
    split; [naive_solver|done|naive_solver|done].
Qed.

(** With both ends of every edge among the string ids, no assertion of
    [add_edge] fails: the edges are added, each in one orientation. *)
Lemma nt_add_edges_Ok nt es :
  (∀ e, e ∈ es → NodeStr e.1 ∈ nt_nodes nt ∧ NodeStr e.2 ∈ nt_nodes nt) →
  ∃ nt', nt_add_edges nt es = Ok nt' ∧ nt_nodes nt' = nt_nodes nt ∧
    (∀ e, e ∈ nt_edges nt' → e ∈ nt_edges nt ∨ e ∈ es) ∧
    (∀ e, e ∈ nt_edges nt → e ∈ nt_edges nt') ∧
    (∀ a b, (a, b) ∈ es → (a, b) ∈ nt_edges nt' ∨ (b, a) ∈ nt_edges nt').
Proof.
  revert nt. induction es as [|[a b] es IH]; intros nt Hes.
  { exists nt. split_and!; [done|done|naive_solver|done|set_solver]. }
  destruct (Hes (a, b)) as [Ha Hb]; [by left|]. simpl in Ha, Hb.
  assert (∃ nt1, nt_add_edge nt a b = Ok nt1 ∧ nt_nodes nt1 = nt_nodes nt ∧
            (∀ e, e ∈ nt_edges nt1 → e ∈ nt_edges nt ∨ e = (a, b)) ∧
            (∀ e, e ∈ nt_edges nt → e ∈ nt_edges nt1) ∧
            ((a, b) ∈ nt_edges nt1 ∨ (b, a) ∈ nt_edges nt1))
    as (nt1 & Hadd & Hn1 & He1 & Hk1 & Hab).
  { unfold nt_add_edge. rewrite (bool_decide_eq_true_2 (NodeStr a ∈ _)),
      (bool_decide_eq_true_2 (NodeStr b ∈ _)) by done.
    case_bool_decide as Hex; eexists; (split_and!; [done|done|..]); simpl;
      try setoid_rewrite elem_of_app; try setoid_rewrite list_elem_of_singleton;
      naive_solver. }
  destruct (IH nt1) as (nt' & Hrun & Hn' & Hsub & Hkeep & Hall).
  { intros e He. rewrite Hn1. apply Hes. by right. }
  exists nt'. unfold nt_add_edges. simpl. rewrite Hadd. simpl.
  split_and!; [done|congruence| | |].
  - intros e He. apply Hsub in He as [He|He]; [apply He1 in He|]; set_solver.
  - intros e He. by apply Hkeep, Hk1.
  - intros a' b' [[= -> ->]|Hin]%elem_of_cons; [|by apply Hall].
    destruct Hab; [left|right]; by apply Hkeep.
Qed.

Lemma nt_add_edge_missing nt a b :
  NodeStr a ∉ nt_nodes nt ∨ NodeStr b ∉ nt_nodes nt →
  nt_add_edge nt a b = Raise AssertionError.
Proof.
  intros Hm. unfold nt_add_edge.
  destruct (decide (NodeStr a ∈ nt_nodes nt)) as [Ha|Ha];
    [rewrite bool_decide_eq_true_2 by done|by rewrite bool_decide_eq_false_2].
  rewrite bool_decide_eq_false_2; [done|tauto].
Qed.

Lemma nt_add_edge_present nt a b :
  NodeStr a ∈ nt_nodes nt → NodeStr b ∈ nt_nodes nt →
  ∃ nt1, nt_add_edge nt a b = Ok nt1 ∧ nt_nodes nt1 = nt_nodes nt.
Proof.
  intros Ha Hb. unfold nt_add_edge. rewrite !bool_decide_eq_true_2 by done.
  case_bool_decide; eexists; split; done.
Qed.

(** An edge with an end that is not a string id stops the loop with the
    [AssertionError] of [add_edge]; the edges before it leave the node
    ids as they are. *)
Lemma nt_add_edges_Raise nt es :
  (∃ e, e ∈ es ∧ (NodeStr e.1 ∉ nt_nodes nt ∨ NodeStr e.2 ∉ nt_nodes nt)) →
  nt_add_edges nt es = Raise AssertionError.
Proof.
  revert nt. induction es as [|[a b] es IH]; intros nt (e & He & Hmiss);
    [by apply elem_of_nil in He|].
  unfold nt_add_edges. cbn [outcome_fold fst snd].
  destruct (decide (NodeStr a ∈ nt_nodes nt ∧ NodeStr b ∈ nt_nodes nt)) as [[Ha Hb]|Hab].
  - destruct (nt_add_edge_present nt a b Ha Hb) as (nt1 & -> & Hn1). simpl.
    apply elem_of_cons in He as [->|He]; [simpl in Hmiss; tauto|].
    apply IH. exists e. by rewrite Hn1.
  - rewrite nt_add_edge_missing; [done|].
    destruct (decide (NodeStr a ∈ nt_nodes nt)); [right|left]; naive_solver.
Qed.

(** An edge [g.edges] yields joins a node to one of its neighbours. *)
Lemma graph_edges_loop (L : list (celex * gset celex)) st e :
  e ∈ (foldl graph_edges_step st L).2 →
  e ∈ st.2 ∨ ∃ nbrs, (e.1, nbrs) ∈ L ∧ e.2 ∈ nbrs.
Proof.
  revert st. induction L as [|[n nbrs] L IH]; intros st; simpl; [by left|].
  intros [He|(nbrs' & Hin & Hb)]%IH; [|right; exists nbrs'; split; [by right|done]].
  unfold graph_edges_step in He. simpl in He.
  apply elem_of_app in He as [He|(nbr & -> & Hnbr)%list_elem_of_fmap]; [by left|].
  right. exists nbrs. split; [by left|].
  apply list_elem_of_filter in Hnbr as [_ Hnbr]. by apply elem_of_elements.
Qed.

Lemma graph_edges_sound g a b :
  a ⇝ b ∈ graph_edges g → b ∈ neighbors g a.
Proof.
  intros [Hin|(nbrs & Hin & Hb)]%graph_edges_loop; [set_solver|].
  apply elem_of_map_to_list in Hin. unfold neighbors. simpl in *. by rewrite Hin.
Qed.

Lemma graph_edges_mono L st e :
  e ∈ st.2 → e ∈ (foldl graph_edges_step st L).2.
Proof.
  revert st. induction L as [|nn L IH]; intros st He; simpl; [done|].
  apply IH. unfold graph_edges_step. simpl. set_solver.
Qed.

(** The node currently visited emits its edge to every neighbour not
    visited before it. *)
Lemma graph_edges_step_emits st k nk b :
  b ∈ nk → b ∉ st.1 → k ⇝ b ∈ (graph_edges_step st (k, nk)).2.
Proof.
  intros Hb Hst. unfold graph_edges_step. simpl. apply elem_of_app. right.
  apply list_elem_of_fmap. exists b. split; [done|].
  apply list_elem_of_filter. split; [done|by apply elem_of_elements].
Qed.

(** Of two adjacent nodes, the one visited first emits the edge. *)
Lemma graph_edges_loop_complete (L : list (celex * gset celex)) st a na b :
  NoDup L.*1 → (∀ k, k ∈ L.*1 → k ∉ st.1) →
  (a, na) ∈ L → b ∈ na → b ∉ st.1 → (∃ nb, (b, nb) ∈ L ∧ a ∈ nb) →
  a ⇝ b ∈ (foldl graph_edges_step st L).2 ∨ b ⇝ a ∈ (foldl graph_edges_step st L).2.
Proof.
  revert st. induction L as [|[k nk] L IH]; intros st Hnd Hdisj Ha Hb Hbst Hnb;
    [by apply elem_of_nil in Ha|].
  csimpl in *. apply NoDup_cons in Hnd as [Hk Hnd].
  assert (Hkey : ∀ x n, (x, n) ∈ (k, nk) :: L → x = k ∧ n = nk ∨ x ≠ k ∧ (x, n) ∈ L).
  { intros x n [[= -> ->]|Hin]%elem_of_cons; [by left|right].
    split; [|done]. intros ->. apply Hk, list_elem_of_fmap. by exists (k, n). }
  destruct (Hkey _ _ Ha) as [[-> ->]|[Hak Ha']].
  { left. apply graph_edges_mono, graph_edges_step_emits; done. }
  destruct Hnb as (nb & Hnb & Hanb). destruct (Hkey _ _ Hnb) as [[-> ->]|[Hbk Hnb']].
  { right. apply graph_edges_mono, graph_edges_step_emits; [done|].
    apply Hdisj. right. apply list_elem_of_fmap. by exists (a, na). }
  apply (IH _ Hnd); [|done|done|unfold graph_edges_step; simpl; set_solver|eauto].
  intros k' Hk'. unfold graph_edges_step. simpl. rewrite elem_of_union, elem_of_singleton.
  intros [Hst|Heq]; [by apply (Hdisj k'); [right|]|subst k'; done].
Qed.

(** On a graph with networkx's invariant, [g.edges] yields every
    adjacency, in one orientation or the other. *)
Lemma graph_edges_complete g a b :
  nx_wf g → b ∈ neighbors g a → a ⇝ b ∈ graph_edges g ∨ b ⇝ a ∈ graph_edges g.
Proof.
  rewrite nx_wf_spec. intros Hwf Hb. pose proof (Hwf _ _ Hb) as Ha.
  unfold neighbors in Ha, Hb.
  destruct (g !! a) as [na|] eqn:Ea; [|set_solver].
  destruct (g !! b) as [nb|] eqn:Eb; [|set_solver]. simpl in *.
  apply (graph_edges_loop_complete _ _ a na b); [apply NoDup_fst_map_to_list|set_solver
    |by apply elem_of_map_to_list|done|set_solver|].
  exists nb. split; [by apply elem_of_map_to_list|done].
Qed.


(** What [add_nodes] makes of the filtered set. *)
Lemma visualise_nodes (filtered : gset celex) :
  (∀ n, NodeStr n ∈ nt_nodes (nt_add_nodes (PyvisNetwork [] []) (elements filtered)) ↔
        n ∈ filtered ∧ py_int_of_str n = None) ∧
  (∀ z, NodeInt z ∈ nt_nodes (nt_add_nodes (PyvisNetwork [] []) (elements filtered)) ↔
        ∃ n, n ∈ filtered ∧ py_int_of_str n = Some z) ∧
  nt_edges (nt_add_nodes (PyvisNetwork [] []) (elements filtered)) = [].
Proof.
  destruct (nt_add_nodes_spec (PyvisNetwork [] []) (elements filtered)) as [Hn He].
  split_and!; [intros n|intros z|done]; rewrite Hn; setoid_rewrite elem_of_elements;
    simpl; setoid_rewrite elem_of_nil.
  - split; [intros [[]|(m & Hm & Heq)]; symmetry in Heq;
              apply pyvis_node_id_str in Heq as [-> ?]; done|].
    intros [Hn' Hi]. right. exists n. split; [done|]. symmetry. by apply pyvis_node_id_str.
  - split; [intros [[]|(m & Hm & Heq)]; symmetry in Heq;
              apply pyvis_node_id_int in Heq; eauto|].
    intros (m & Hm & Hi). right. exists m. split; [done|]. symmetry. by apply pyvis_node_id_int.
Qed.

(** The edges lines 69-70 hand to [add_edges]. *)
Abbreviation drawn_edges g filtered :=
  (filter (λ e : link, e.1 ∈ filtered ∧ e.2 ∈ filtered) (graph_edges g)).

(** The network lines 66-70 render, or the assertion that stops them. *)
Lemma visualise_network_spec g width height filtered source :
  ((∃ a b, a ⇝ b ∈ graph_edges g ∧ a ∈ filtered ∧ b ∈ filtered ∧
           (is_Some (py_int_of_str a) ∨ is_Some (py_int_of_str b))) →
   visualise_network g width height filtered source = Raise AssertionError) ∧
  ((∀ a b, a ⇝ b ∈ graph_edges g → a ∈ filtered → b ∈ filtered →
           py_int_of_str a = None ∧ py_int_of_str b = None) →
   ∃ nt, visualise_network g width height filtered source = Ok nt ∧
    (∀ n, NodeStr n ∈ nt_nodes nt ↔ n ∈ filtered ∧ py_int_of_str n = None) ∧
    (∀ z, NodeInt z ∈ nt_nodes nt ↔ ∃ n, n ∈ filtered ∧ py_int_of_str n = Some z) ∧
    (∀ a b, (a, b) ∈ nt_edges nt → a ∈ filtered ∧ b ∈ filtered ∧ b ∈ neighbors g a) ∧
    (∀ a b, a ⇝ b ∈ graph_edges g → a ∈ filtered → b ∈ filtered →
            (a, b) ∈ nt_edges nt ∨ (b, a) ∈ nt_edges nt)).
Proof.
  unfold visualise_network. destruct (visualise_nodes filtered) as (Hs & Hi & He).
  split.
  - intros (a & b & Hg & Ha & Hb & Hab). apply nt_add_edges_Raise.
    exists (a, b). split; [apply list_elem_of_filter; done|]. simpl. rewrite !Hs.
    destruct Hab as [[z Hz]|[z Hz]]; [left|right]; rewrite Hz; naive_solver.
  - intros Hnum.
    destruct (nt_add_edges_Ok (nt_add_nodes (PyvisNetwork [] []) (elements filtered))
                (drawn_edges g filtered)) as (nt & Hrun & Hn' & Hsub & _ & Hall).
    { intros [a b] [[Ha Hb] Hg]%list_elem_of_filter. simpl in *. rewrite !Hs.
      destruct (Hnum a b) as [Hna Hnb]; done. }
    exists nt. rewrite Hn'. split_and!; [done|done|done| |].
    + intros a b [Hab|[[Ha Hb] Hg]%list_elem_of_filter]%Hsub;
        [rewrite He in Hab; set_solver|].
      split_and!; [done|done|by apply graph_edges_sound].
    + intros a b Hg Ha Hb. apply Hall, list_elem_of_filter. done.
Qed.

(** C29 (error): pyvis turns every filtered id that Python's [int()]
    accepts into an int, while the edges of line 69 keep the string ids,
    so [visualise_network] fails an assertion of [add_edge], with
    [AssertionError] and no other exception, exactly when an edge of [g]
    between two filtered nodes has a number-like end.  Otherwise it
    renders every filtered id (as an int where [int()] accepts it), only
    edges of [g] between filtered nodes, and every such edge in one
    orientation. *)
Theorem visualise_network_safe g width height filtered source :
  (visualise_network g width height filtered source = Raise AssertionError ↔
   ∃ a b, a ⇝ b ∈ graph_edges g ∧ a ∈ filtered ∧ b ∈ filtered ∧
          (is_Some (py_int_of_str a) ∨ is_Some (py_int_of_str b))) ∧
  (∀ e, visualise_network g width height filtered source = Raise e → e = AssertionError) ∧
  (∀ nt, visualise_network g width height filtered source = Ok nt →
    (∀ n, NodeStr n ∈ nt_nodes nt ↔ n ∈ filtered ∧ py_int_of_str n = None) ∧
    (∀ z, NodeInt z ∈ nt_nodes nt ↔ ∃ n, n ∈ filtered ∧ py_int_of_str n = Some z) ∧
    (∀ a b, (a, b) ∈ nt_edges nt → a ∈ filtered ∧ b ∈ filtered ∧ b ∈ neighbors g a) ∧
    (∀ a b, a ⇝ b ∈ graph_edges g → a ∈ filtered → b ∈ filtered →
            (a, b) ∈ nt_edges nt ∨ (b, a) ∈ nt_edges nt)).
Proof.
  destruct (visualise_network_spec g width height filtered source) as [Hraise Hok].
  destruct (decide (Exists (λ e : link, e.1 ∈ filtered ∧ e.2 ∈ filtered ∧
                       (is_Some (py_int_of_str e.1) ∨ is_Some (py_int_of_str e.2)))
                     (graph_edges g))) as [Hnum|Hnum]; rewrite Exists_exists in Hnum.
  - assert (Hex : ∃ a b, a ⇝ b ∈ graph_edges g ∧ a ∈ filtered ∧ b ∈ filtered ∧
                    (is_Some (py_int_of_str a) ∨ is_Some (py_int_of_str b)))
      by (destruct Hnum as ([a b] & ? & ?); exists a, b; naive_solver).
    rewrite (Hraise Hex). split_and!; [done|by intros e [= ->]|done].
  - destruct Hok as (nt & Hrun & Hprops).
    { intros a b Hg Ha Hb. rewrite !eq_None_not_Some.
      split; intros Hs; apply Hnum; exists (a, b); naive_solver. }
    rewrite Hrun. split_and!; [split; [done|]|done|by intros ? [= <-]].
    intros (a & b & ?). exfalso. apply Hnum. exists (a, b). naive_solver.
Qed.

(** C20 (refinement): rendering the graph that [generate_network] builds
    from its links (lines 51-52), when every filtered identifier holds a
    letter (every CELEX number does, its document type),
    [visualise_network] draws exactly the filtered nodes, as string ids,
    and, between two filtered nodes, an edge (in one orientation)
    exactly when one of them cites the other. *)
Theorem visualise_network_links links width height filtered source :
  (∀ n, n ∈ filtered → ∃ a, a ∈ String.list_ascii_of_string n ∧ is_letter a = true) →
  ∃ nt, visualise_network (add_edges_from ∅ links) width height filtered source = Ok nt ∧
    (∀ x, x ∈ nt_nodes nt ↔ ∃ n, n ∈ filtered ∧ x = NodeStr n) ∧
    (∀ a b, (a, b) ∈ nt_edges nt → a ∈ filtered ∧ b ∈ filtered) ∧
    (∀ a b, a ∈ filtered → b ∈ filtered →
       ((a, b) ∈ nt_edges nt ∨ (b, a) ∈ nt_edges nt ↔ a ⇝ b ∈ links ∨ b ⇝ a ∈ links)).
Proof.
  intros Hletter.
  assert (Hnone : ∀ n, n ∈ filtered → py_int_of_str n = None).
  { intros n Hn. destruct (Hletter n Hn) as (a & Ha & Hl). by apply (py_int_of_str_letter _ a). }
  destruct (proj2 (visualise_network_spec (add_edges_from ∅ links) width height filtered source))
    as (nt & Hrun & Hs & Hi & Hsnd & Hcmp).
  { intros a b _ Ha Hb. auto. }
  exists nt. split_and!; [done| |naive_solver|].
  - intros [z|n]; split.
    + intros (m & Hm & Hz)%Hi. by rewrite Hnone in Hz.
    + by intros (n & _ & [=]).
    + intros [Hn _]%Hs. eauto.
    + intros (m & Hm & [= ->]). apply Hs. auto.
  - intros a b Ha Hb. split.
    + intros [(_ & _ & H)%Hsnd|(_ & _ & H)%Hsnd];
        apply elem_of_add_edges_from_neighbors in H; tauto.
    + intros Hl. assert (Hab : b ∈ neighbors (add_edges_from ∅ links) a)
        by (apply elem_of_add_edges_from_neighbors; tauto).
      destruct (graph_edges_complete _ a b (add_edges_from_empty_wf links) Hab) as [H|H];
        [|apply or_comm]; by apply Hcmp.
Qed.

(** An all-digit identifier becomes the int node [123]; the edge to it,
    given by its string, fails pyvis's assertion. *)
Example visualise_network_digit_id :
  visualise_network (add_edges_from ∅ {["3A" ⇝ "123"]}) 1280 720 {["3A"; "123"]} "3A"
  = Raise AssertionError.
Proof. vm_compute. reflexivity. Qed.

Lemma visualise_network_links_witness :
  (∀ n, n ∈ ({["32021R0664"; "32019R0945"]} : gset celex) →
        ∃ a, a ∈ String.list_ascii_of_string n ∧ is_letter a = true) ∧
  ∃ nt, visualise_network (add_edges_from ∅ {["32021R0664" ⇝ "32019R0945"]}) 1280 720
          {["32021R0664"; "32019R0945"]} "32021R0664" = Ok nt ∧
    (∀ x, x ∈ nt_nodes nt ↔ ∃ n, n ∈ ({["32021R0664"; "32019R0945"]} : gset celex) ∧ x = NodeStr n) ∧
    (∀ a b, (a, b) ∈ nt_edges nt →
            a ∈ ({["32021R0664"; "32019R0945"]} : gset celex) ∧
            b ∈ ({["32021R0664"; "32019R0945"]} : gset celex)) ∧
    (∀ a b, a ∈ ({["32021R0664"; "32019R0945"]} : gset celex) →
            b ∈ ({["32021R0664"; "32019R0945"]} : gset celex) →
       ((a, b) ∈ nt_edges nt ∨ (b, a) ∈ nt_edges nt ↔
        a ⇝ b ∈ ({["32021R0664" ⇝ "32019R0945"]} : gset link) ∨
        b ⇝ a ∈ ({["32021R0664" ⇝ "32019R0945"]} : gset link))).
Proof.
  assert (H : ∀ n, n ∈ ({["32021R0664"; "32019R0945"]} : gset celex) →
                ∃ a, a ∈ String.list_ascii_of_string n ∧ is_letter a = true).
  { intros n Hn. exists "R"%char. split; [|reflexivity].
    apply elem_of_union in Hn as [->%elem_of_singleton| ->%elem_of_singleton];
      apply (bool_decide_unpack _); vm_compute; reflexivity. }
  split; [exact H|]. exact (visualise_network_links _ 1280 720 _ "32021R0664" H).
Defined.
