(* ===== verification/Main.v ===== *)
(** * The driver functions of main.py

    [get_started] (6-25), [get_indv_stats] (27-36), [prep_edges_list]
    (38-47, the CSV file write) and [generate_network] (49-64, up to the
    GEXF export).  They call the helpers over a lookup that may raise
    ([ExpanderExc], [Aggregator]'s [_exc] functions), as the code's
    [get_citations] does.  Globals the code reads but never defines
    ([expert_docs], and [sources] in [get_indv_stats]) are explicit
    arguments.  main.py as committed does
    not parse (its import statement of lines 1-2 breaks a line without
    parentheses, and [visualise_network] puts a parameter without a
    default after defaulted ones); the functions are modelled as their
    bodies read. *)

From S2P Require Import Prelude Reach Sparql Lookup Expander ExpanderExc Aggregator Stats Graph.
From Stdlib Require Import QArith.

Local Open Scope Z_scope.

(** One printed line of the sweep: a row of scores, or the message of
    the [except ZeroDivisionError] branch. *)
Inductive sweep_line :=
| Row (cites_depth cited_depth : Z) (precision recall f1 : Q)
| Skipped.

Section WithLookup.
Context (lookup : celex → Z → Z → outcome (gset celex)) (expert_docs : gset celex).

(** Lines 32-36, one cell of the grid: the [try] catches
    [ZeroDivisionError] only, so an exception of a lookup propagates. *)
Definition sweep_cell (sources : list celex) (i j : Z) : outcome sweep_line :=
  match (found ← get_citations_multiple_exc lookup sources i j true;
         do_stats expert_docs found) with
  | Ok (precision, recall, f1) => Ok (Row i j precision recall f1)
  | Raise ZeroDivisionError => Ok Skipped
  | Raise e => Raise e
  end.

(** The cells of lines 30-31, row by row: [range(range_limit)] twice. *)
Definition sweep_grid (range_limit : Z) : list (Z * Z) :=
  seqZ 0 range_limit ≫= λ i, (λ j, (i, j)) <$> seqZ 0 range_limit.

(** Lines 27-36; [sources] is the global the body reads. *)
Definition get_indv_stats (sources : list celex) (range_limit : Z)
    : outcome (list sweep_line) :=
  mapM (λ ij : Z * Z, sweep_cell sources ij.1 ij.2) (sweep_grid range_limit).

(** Lines 49-64 up to the export: [nx.write_gex] does not exist in
    networkx, so line 63 raises [AttributeError] after the stats. *)
Definition generate_network (sources : list celex) (filter_degree : Z)
    (filter_network : bool) : outcome (gset celex) :=
  r ← get_citations_structure_multiple_exc lookup sources 2 2;
  let filtered := degree_filter (exp_links r) filter_degree filter_network in
  _ ← do_stats expert_docs filtered;
  Raise AttributeError.

(** Lines 6-25: the hard-coded seeds, then the stats on the nodes. *)
Definition get_started (single : bool) : outcome (gset link * gset celex) :=
  r ← (if single
       then get_citations_structure_exc lookup "32021R0664" 2 0 ∅
       else get_citations_structure_multiple_exc lookup
              ["32019R0945"; "32021R0664"] 2 1);
  _ ← do_stats expert_docs (exp_nodes r);
  Ok (exp_links r, exp_nodes r).
End WithLookup.

(** The files the program writes: path to contents. *)
Abbreviation file_system := (gmap string string).

(** Python's [str + list]: [TypeError] (only [str] concatenates to
    [str]). *)
Definition py_add_str_list (s : string) (l : list Z) : outcome string :=
  Raise TypeError.

(** Line 41: [i[0][1:] + ','] is a string, [[1][1:]] is the list
    [[]]: the second [+] adds a list to a string. *)
Definition edge_line (i : link) : outcome string :=
  py_add_str_list (String.substring 1 (String.length i.1 - 1) i.1 +:+ ",") [].

(** Lines 38-47: the loop of lines 40-42 builds the lines, then lines
    43-46 truncate the file and write each line and a newline.  The
    [print] of line 47 is output, not modelled. *)
Definition prep_edges_list (fs : file_system) (links : gset link)
    : outcome file_system :=
  edges_list_for_csv ← mapM edge_line (elements links);
  let contents := foldr (λ entries acc, entries +:+ String line_feed acc)
                        EmptyString edges_list_for_csv in
  Ok (<["./extracted_edges_network.csv" := contents]> fs).

Lemma elem_of_sweep_grid n i j :
  (i, j) ∈ sweep_grid n ↔ 0 ≤ i < n ∧ 0 ≤ j < n.
Proof.
  unfold sweep_grid. rewrite list_elem_of_bind. setoid_rewrite elem_of_seqZ.
  setoid_rewrite list_elem_of_fmap. setoid_rewrite elem_of_seqZ. split.
  - intros (y & (x & [= -> ->] & Hx) & Hy). lia.
  - intros [Hi Hj]. exists i. split; [exists j; split; [done|lia]|lia].
Qed.

Section Properties.
Context (lookup : celex → Z → Z → outcome (gset celex)) (expert_docs : gset celex).

(** The printed line of a cell, on the lookup's answers. *)
Local Definition line_of (sources : list celex) (ij : Z * Z) : sweep_line :=
  match do_stats expert_docs
          (get_citations_multiple (answers_of lookup) sources ij.1 ij.2 true) with
  | Ok (p, r, f) => Row ij.1 ij.2 p r f
  | Raise _ => Skipped
  end.

(** The lookups of a cell: one per source, with the cell's depths. *)
Local Definition cell_calls (sources : list celex) (ij : Z * Z)
    : list (celex * Z * Z) :=
  (λ s, (s, ij.1, ij.2)) <$> sources.

(** C21 (error): the sweep skips every cell whose scores divide by
    zero, and is aborted by the first lookup that raises, in row-major
    order of the cells and list order of the sources; when no lookup
    raises, every cell of the grid gives one line. *)
Theorem get_indv_stats_lines sources range_limit :
  (∀ y a b, lookup y a b ≠ Raise ZeroDivisionError) →
  get_indv_stats lookup expert_docs sources range_limit =
  abort_calls lookup (sweep_grid range_limit ≫= cell_calls sources)
              (line_of sources <$> sweep_grid range_limit).
Proof.
  intros Hnz. apply mapM_abort_calls. intros [i j]. simpl.
  unfold sweep_cell, line_of, cell_calls. rewrite get_citations_multiple_exc_abort.
  unfold abort_calls. simpl.
  destruct (first_failure _ _) as [e|] eqn:Hf; simpl.
  - destruct e; try done. exfalso.
    apply first_failure_Some in Hf as (y & a & b & _ & Hy). by apply (Hnz y a b).
  - destruct (do_stats _ _) as [[[p r] f]|e] eqn:Hs; [done|].
    by apply do_stats_raise_zero in Hs as ->.
Qed.

End Properties.


(** With the network down every lookup raises [URLError]. *)
Definition offline_lookup (_ : celex) (_ _ : Z) : outcome (gset celex) :=
  Raise URLError.

(** The sweep of one seed over a 1 × 1 grid is aborted by its only
    lookup. *)
Lemma get_indv_stats_lines_witness :
  (∀ y a b, offline_lookup y a b ≠ Raise ZeroDivisionError) ∧
  get_indv_stats offline_lookup sample_expert ["32021R0664"] 1 =
  abort_calls offline_lookup (sweep_grid 1 ≫= cell_calls ["32021R0664"])
    (line_of offline_lookup sample_expert ["32021R0664"] <$> sweep_grid 1).
Proof.
  assert (Hnz : ∀ y a b, offline_lookup y a b ≠ Raise ZeroDivisionError) by done.
  split; [exact Hnz|]. exact (get_indv_stats_lines _ sample_expert ["32021R0664"] 1 Hnz).
Defined.
